(** * RigelEngine: asset loading and the tile grid

    A shallow embedding of

    - [src/data/map.cpp]               (the tile grid [Map]),
    - [src/loader/resource_loader.cpp] (the [ResourceLoader] facade),

    together with the properties the design document states about them.

    Conventions.  C++ integers are [Z] with the conversions written out
    ([to_size_t]); byte buffers are [list byte]; [std::string] is [string];
    a function that can throw returns a [Result]; a member function that can
    throw after having changed the object returns the object as well. *)

From Stdlib Require Import ZArith Lia List Ascii String Strings.Byte Bool DecimalString.
From stdpp Require Import base option list strings gmap fin_maps.

Open Scope string_scope.
Open Scope list_scope.
Open Scope Z_scope.

(** ** Failures *)

(** The exceptions the embedded code throws.  [InvalidArgument] carries the
    message of [std::invalid_argument]; [OutOfBounds] stands for a read or an
    iterator that leaves its buffer, which the C++ code leaves undefined. *)
Inductive Error : Type :=
| FormatError
| NotFoundError
| InvalidArgument (what : string)
| OutOfBounds.

Inductive Result (A : Type) : Type :=
| Ok (a : A)
| Err (e : Error).
Arguments Ok {A} a.
Arguments Err {A} e.

(** Sequencing: the first failure ends the computation, as a thrown
    exception does.  [x ← c; k] is stdpp's notation for [mbind]. *)
#[export] Instance Result_ret : MRet Result := fun A a => Ok a.

#[export] Instance Result_bind : MBind Result := fun A B k c =>
  match c with
  | Ok a => k a
  | Err e => Err e
  end.

Definition is_Ok {A : Type} (r : Result A) : Prop :=
  match r with Ok _ => True | Err _ => False end.

(** ** Data model shared by the loader and the map *)

Abbreviation ByteBuffer := (list byte).

Definition u8 (b : byte) : Z := Z.of_N (Byte.to_N b).

Record Pixel : Type := mkPixel { red : Z; green : Z; blue : Z; alpha : Z }.

#[export] Instance Pixel_inhabited : Inhabited Pixel :=
  populate (mkPixel 0 0 0 0).

Abbreviation PixelBuffer := (list Pixel).

Record Image : Type := mkImage {
  pixels : PixelBuffer;
  width : Z;
  height : Z
}.

(** [map::TileIndex] is [std::uint32_t]; [TileAttributeDict] wraps the
    [std::vector<uint16_t>] it is built from. *)
Abbreviation TileIndex := Z.

Record TileSet : Type := mkTileSet {
  image : Image;
  attributes : list Z
}.

(** The compile-time constants of [data/game_traits.hpp] the embedded code
    reads.  The header is not among the sources, so the constants are taken
    as parameters. *)
Class GameTraits : Type := {
  viewPortWidthPx : Z;
  viewPortHeightPx : Z;
  viewPortWidthTiles : Z;
  numSolidTiles : Z;
  numTilesTotal : Z;
  attributeBytesTotal : Z;
  tileBytes : Z;
  tileSetImageWidth : Z;
  tileSetImageHeight : Z;
  solidTilesImageHeight : Z
}.

(** ** [data::map::Map] (src/data/map.cpp) *)

Definition to_size_t (v : Z) : Z := v mod 2 ^ 64.

Definition int_range (v : Z) : Prop := - 2 ^ 31 <= v < 2 ^ 31.

Abbreviation TileArray := (list TileIndex).

Record Map : Type := mkMap {
  mTileSet : TileSet;
  mLayers : list TileArray;
  mBackdropImage : Image;
  mSecondaryBackdropImage : option Image;
  mWidthInTiles : Z;
  mHeightInTiles : Z
}.

(** [Map::Map]: two layers of [widthInTiles*heightInTiles] zeroes. *)
Definition Map_new (tileSet : TileSet) (backdrop : Image)
    (secondaryBackdrop : option Image) (widthInTiles heightInTiles : Z) : Map :=
  {| mTileSet := tileSet;
     mLayers := [ replicate (Z.to_nat (widthInTiles * heightInTiles)) 0;
                  replicate (Z.to_nat (widthInTiles * heightInTiles)) 0 ];
     mBackdropImage := backdrop;
     mSecondaryBackdropImage := secondaryBackdrop;
     mWidthInTiles := to_size_t widthInTiles;
     mHeightInTiles := to_size_t heightInTiles |}.

(** A [TileIndex&] into the map: the layer and the offset in that layer. *)
Definition TileRef : Type := (nat * nat)%type.

(** [Map::tileRefAt]: the three bounds checks on the operands converted to
    [size_t], then the address [mLayers[layer][x + y*mWidthInTiles]]. *)
Definition tileRefAt (m : Map) (layerS xS yS : Z) : Result TileRef :=
  let layer := to_size_t layerS in
  let x := to_size_t xS in
  let y := to_size_t yS in
  if Z.of_nat (length (mLayers m)) <=? layer then
    Err (InvalidArgument "Layer index out of bounds")
  else if mWidthInTiles m <=? x then
    Err (InvalidArgument "X coord out of bounds")
  else if mHeightInTiles m <=? y then
    Err (InvalidArgument "Y coord out of bounds")
  else
    Ok (Z.to_nat layer, Z.to_nat (to_size_t (x + y * mWidthInTiles m))).

(** Reading and writing through a reference.  [std::vector::operator[]]
    outside the vector is undefined: reading gives [None] here. *)
Definition readRef (m : Map) (ref : TileRef) : option TileIndex :=
  row ← mLayers m !! ref.1; row !! ref.2.

Definition writeRef (m : Map) (ref : TileRef) (index : TileIndex) : Map :=
  {| mTileSet := mTileSet m;
     mLayers := alter (fun row => <[ref.2 := index]> row) ref.1 (mLayers m);
     mBackdropImage := mBackdropImage m;
     mSecondaryBackdropImage := mSecondaryBackdropImage m;
     mWidthInTiles := mWidthInTiles m;
     mHeightInTiles := mHeightInTiles m |}.

(** [Map::tileAt]. *)
Definition tileAt (m : Map) (layer x y : Z) : Result TileIndex :=
  ref ← tileRefAt m layer x y;
  match readRef m ref with
  | Some index => Ok index
  | None => Err OutOfBounds
  end.

(** [Map::setTileAt].  The method mutates the map, so the map after the
    call is returned next to the outcome, also when the call throws. *)
Definition setTileAt `{GameTraits} (m : Map) (layer x y : Z) (index : TileIndex)
    : Result unit * Map :=
  if numTilesTotal <=? index then
    (Err (InvalidArgument "Tile index too large for tile set"), m)
  else
    match tileRefAt m layer x y with
    | Err e => (Err e, m)
    | Ok ref => (Ok tt, writeRef m ref index)
    end.

(** The state every constructed map is in: non-negative dimensions (the
    constructor's assertions) whose product fits an [int], two layers of
    [width*height] tiles. *)
Record Map_wf (m : Map) : Prop := {
  wf_width : 0 <= mWidthInTiles m < 2 ^ 31;
  wf_height : 0 <= mHeightInTiles m < 2 ^ 31;
  wf_area : mWidthInTiles m * mHeightInTiles m < 2 ^ 31;
  wf_layers : length (mLayers m) = 2%nat;
  wf_rows : forall row, row ∈ mLayers m ->
      Z.of_nat (length row) = mWidthInTiles m * mHeightInTiles m
}.

(** ** Strings, paths and the file system *)

Definition to_lower (c : ascii) : ascii :=
  let n := N_of_ascii c in
  if ((65 <=? n) && (n <=? 90))%N then ascii_of_N (n + 32) else c.

Definition to_upper (c : ascii) : ascii :=
  let n := N_of_ascii c in
  if ((97 <=? n) && (n <=? 122))%N then ascii_of_N (n - 32) else c.

Fixpoint lower_string (s : string) : string :=
  match s with
  | EmptyString => EmptyString
  | String c s' => String (to_lower c) (lower_string s')
  end.

(** Two strings that differ in the case of their letters only. *)
Definition eq_nocase (s t : string) : Prop := lower_string s = lower_string t.

Fixpoint ends_with_separator (p : string) : bool :=
  match p with
  | EmptyString => true
  | String c EmptyString => Ascii.eqb c "/"
  | String _ p' => ends_with_separator p'
  end.

Definition is_absolute (p : string) : bool :=
  match p with
  | String c _ => Ascii.eqb c "/"
  | EmptyString => false
  end.

(** A path followed by a directory separator, unless it is empty or has
    one already. *)
Definition with_separator (p : string) : string :=
  if ends_with_separator p then p else p +:+ "/".

(** [operator/] of [std::filesystem::path] with POSIX separators: an
    absolute right operand replaces the left one, otherwise the operands are
    joined with exactly one separator. *)
Definition path_append (p q : string) : string :=
  if is_absolute q then q else with_separator p +:+ q.

Infix "</>" := path_append (at level 40, left associativity).

(** The files on disk, by path.  [fs::exists] and [loadFile] read it.
    Regular files only: a path that names a directory is outside the
    model. *)
Abbreviation FileSystem := (gmap string ByteBuffer).

Definition fs_exists (fs : FileSystem) (path : string) : bool :=
  bool_decide (is_Some (fs !! path)).

(** Modelled from the spec: [loadFile] of loader/file_utils, which is not
    among the sources: the bytes of the "loaded override file".  A missing
    file is a failure. *)
Definition loadFile (fs : FileSystem) (path : string) : Result ByteBuffer :=
  match fs !! path with
  | Some bytes => Ok bytes
  | None => Err NotFoundError
  end.

(** ** The archive *)

(** Modelled from the spec: the PackageIndex ([CMPFilePackage], which is not
    among the sources).  It "owns raw bytes; entry table maps
    case-insensitive name → (offset, length)"; [file(name)] "returns bytes
    for a case-insensitive exact name match, fails with NotFoundError
    otherwise", [hasFile(name)] "never fails".  Entries are keyed by the
    name in lower case. *)
Record CMPFilePackage : Type := mkPackage {
  mFileData : ByteBuffer;
  mFileDict : gmap string (nat * nat)
}.

(** Modelled from the spec: the bytes of the entry with a name, "a
    case-insensitive exact name match". *)
Definition package_entry (pkg : CMPFilePackage) (name : string)
    : option ByteBuffer :=
  entry ← mFileDict pkg !! lower_string name;
  Some (take entry.2 (drop entry.1 (mFileData pkg))).

(** Modelled from the spec: [CMPFilePackage::file], which "fails with
    NotFoundError" when there is no such entry. *)
Definition package_file (pkg : CMPFilePackage) (name : string)
    : Result ByteBuffer :=
  match package_entry pkg name with
  | Some bytes => Ok bytes
  | None => Err NotFoundError
  end.

(** Modelled from the spec: [CMPFilePackage::hasFile], which "never
    fails". *)
Definition package_hasFile (pkg : CMPFilePackage) (name : string) : bool :=
  bool_decide (is_Some (mFileDict pkg !! lower_string name)).

(** ** A fragment of ECMAScript regular expressions

    [std::regex] as far as the loader's two patterns need it: anchors,
    literal text, a bracket expression of character ranges, one or more
    repetitions of a bracket expression, a capturing group, concatenation.
    The matcher backtracks: it lists the ways a pattern can match at the
    front of the subject, first choice first (a repetition is greedy). *)
Inductive regex : Type :=
| Bol
| Eol
| Lit (text : string)
| Bracket (ranges : list (ascii * ascii))
| PlusBracket (ranges : list (ascii * ascii))
| Group (re : regex)
| Cat (re1 re2 : regex).

Definition ascii_le (c d : ascii) : bool := (N_of_ascii c <=? N_of_ascii d)%N.

Definition in_range (lo hi c : ascii) : bool := ascii_le lo c && ascii_le c hi.

(** With [icase] a character is in a range when its lower-case or its
    upper-case form is. *)
Definition in_bracket (icase : bool) (ranges : list (ascii * ascii))
    (c : ascii) : bool :=
  existsb (fun range =>
    if icase
    then in_range range.1 range.2 (to_lower c) ||
         in_range range.1 range.2 (to_upper c)
    else in_range range.1 range.2 c) ranges.

Definition chr_eq (icase : bool) (c d : ascii) : bool :=
  if icase then Ascii.eqb (to_lower c) (to_lower d) else Ascii.eqb c d.

Fixpoint lit_run (icase : bool) (text s : string) : option string :=
  match text with
  | EmptyString => Some s
  | String c text' =>
      match s with
      | String d s' => if chr_eq icase c d then lit_run icase text' s' else None
      | EmptyString => None
      end
  end.

Fixpoint plus_run (icase : bool) (ranges : list (ascii * ascii)) (s : string)
    : list string :=
  match s with
  | String c s' =>
      if in_bracket icase ranges c
      then plus_run icase ranges s' ++ [s']
      else []
  | EmptyString => []
  end.

(** [run icase re pos s]: the matches of [re] at the front of [s], which
    starts at offset [pos] of the subject; each match is the list of the
    texts its groups captured and the rest of [s]. *)
Fixpoint run (icase : bool) (re : regex) (pos : nat) (s : string)
    : list (list string * string) :=
  match re with
  | Bol => match pos with O => [([], s)] | S _ => [] end
  | Eol => match s with EmptyString => [([], s)] | String _ _ => [] end
  | Lit text =>
      match lit_run icase text s with
      | Some rest => [([], rest)]
      | None => []
      end
  | Bracket ranges =>
      match s with
      | String c rest => if in_bracket icase ranges c then [([], rest)] else []
      | EmptyString => []
      end
  | PlusBracket ranges =>
      (fun rest => ([], rest)) <$> plus_run icase ranges s
  | Group re' =>
      (fun m : list string * string =>
         (substring 0 (String.length s - String.length m.2) s :: m.1, m.2))
        <$> run icase re' pos s
  | Cat re1 re2 =>
      m1 ← run icase re1 pos s;
      (fun m2 : list string * string => (m1.1 ++ m2.1, m2.2))
        <$> run icase re2 (pos + (String.length s - String.length m1.2)) m1.2
  end.

(** [std::regex_match]: the first match that uses up the subject; the
    result is [std::smatch], the whole match followed by the groups. *)
Definition regex_match (icase : bool) (re : regex) (s : string)
    : option (list string) :=
  m ← List.find (fun m : list string * string => bool_decide (m.2 = ""))
        (run icase re 0 s);
  Some (s :: m.1).

(** ** Replacement files *)

Definition ASSET_REPLACEMENTS_PATH : string := "asset_replacements".

(** [std::regex{"^CZONE([0-9A-Z])\\.MNI$", std::regex::icase}] *)
Definition tilesetNameRegex : regex :=
  Cat Bol (Cat (Lit "CZONE")
    (Cat (Group (Bracket [("0", "9"); ("A", "Z")]%char))
      (Cat (Lit ".MNI") Eol))).

(** [std::regex{"^DROP([0-9]+)\\.MNI$", std::regex::icase}] *)
Definition backdropNameRegex : regex :=
  Cat Bol (Cat (Lit "DROP")
    (Cat (Group (PlusBracket [("0", "9")]%char))
      (Cat (Lit ".MNI") Eol))).

(** The replacement file name the loader derives from an asset name:
    prefix, first captured group, [".png"]; nothing when the name does not
    match or the match has not exactly one group. *)
Definition replacementName (nameRegex : regex) (prefix name : string)
    : option string :=
  matches ← regex_match true nameRegex name;
  if bool_decide (length matches = 2%nat)
  then number ← matches !! 1%nat; Some (prefix +:+ number +:+ ".png")
  else None.

Definition tilesetReplacementName (name : string) : option string :=
  replacementName tilesetNameRegex "tileset" name.

Definition backdropReplacementName (name : string) : option string :=
  replacementName backdropNameRegex "backdrop" name.

Definition replacementPath (gamePath replacementName : string) : string :=
  gamePath </> ASSET_REPLACEMENTS_PATH </> replacementName.

(** ** Decoders the loader calls *)

Inductive TileImageType : Type := Unmasked | Masked.

Record AudioBuffer : Type := mkAudioBuffer {
  mSampleRate : Z;
  mSamples : list Z
}.

(** [data::SoundId] (data/sound_ids.hpp is not among the sources): the seven
    enumerators [loadSound] names, and the other enumerators. *)
Inductive SoundId : Type :=
| IntroGunShot
| IntroGunShotLow
| IntroEmptyShellsFalling
| IntroTargetMovingCloser
| IntroTargetStopsMoving
| IntroDukeSpeaks1
| IntroDukeSpeaks2
| OtherSound (n : nat).

Abbreviation Palette16 := (list Pixel).
Abbreviation Palette256 := (list Pixel).

(** The functions of other translation units that [resource_loader.cpp]
    calls and that are not among the sources.  They are parameters of the
    development: nothing is assumed about them. *)
Class Collaborators : Type := {
  (** the PNG decoder behind [loadPng], applied to a file's content *)
  decodePng : ByteBuffer -> option Image;
  (** [loadTiledImage(begin, end, widthInTiles, palette, type)] *)
  loadTiledImage : ByteBuffer -> Z -> Palette16 -> TileImageType -> Result Image;
  INGAME_PALETTE : Palette16;
  (** [data::Image(width, height)] and [Image::insertImage(x, y, image)] *)
  Image_new : Z -> Z -> Image;
  insertImage : Image -> Z -> Z -> Image -> Image;
  tilesToPixels : Z -> Z;
  (** [loader::decodeVoc] *)
  decodeVoc : ByteBuffer -> Result AudioBuffer;
  (** [AudioPackage] and [AudioPackage::loadAdlibSound] *)
  AudioPackage : Type;
  loadAdlibSound : AudioPackage -> SoundId -> Result AudioBuffer;
  (** [static_cast<int>(id)] *)
  soundOrdinal : SoundId -> Z
}.

(** Modelled from the spec: [loadPng] of loader/png_image, which is not
    among the sources.  It returns [std::optional<data::Image>]: "if a
    pattern-based candidate exists but fails to decode as an image, treat
    it as absent", so there is no image when the file is missing and when
    its content is not a PNG image. *)
Definition loadPng `{Collaborators} (fs : FileSystem) (path : string)
    : option Image :=
  bytes ← fs !! path; decodePng bytes.

(** ** Palettes *)

(** Modelled from the spec: the PaletteDecoder (loader/palette, which is not
    among the sources).  "each channel = round(sourceValue × 255/63) from a
    6-bit source"; "[load16(bytes)] consumes exactly 48 bytes (16 × 3),
    [load256(bytes)] consumes exactly 768 bytes (256 × 3); each byte triplet
    is a 6-bit RGB color scaled to 8-bit per channel.  Fails with
    FormatError if fewer bytes remain than required."  The decoder returns
    the palette and the bytes it has not consumed. *)
Definition round_div (p q : Z) : Z := (2 * p + q) / (2 * q).

(** Modelled from the spec: "decoded channel == round(value × 255/63)". *)
Definition scale6to8 (value : Z) : Z := round_div (value * 255) 63.

(** Modelled from the spec: [count] colours, a "byte triplet" each, read
    from the front of [bytes]; FormatError "if fewer bytes remain than
    required". *)
Fixpoint load6bitPalette (count : nat) (bytes : ByteBuffer)
    : Result (list Pixel * ByteBuffer) :=
  match count with
  | O => Ok ([], bytes)
  | S count' =>
      match bytes with
      | r :: g :: b :: rest =>
          entries ← load6bitPalette count' rest;
          Ok (mkPixel (scale6to8 (u8 r)) (scale6to8 (u8 g)) (scale6to8 (u8 b))
                255 :: entries.1, entries.2)
      | _ => Err FormatError
      end
  end.

(** Modelled from the spec: [load16] and [load256]. *)
Definition load6bitPalette16 : ByteBuffer -> Result (Palette16 * ByteBuffer) :=
  load6bitPalette 16.

Definition load6bitPalette256 : ByteBuffer -> Result (Palette256 * ByteBuffer) :=
  load6bitPalette 256.

(** ** Little-endian stream reader *)

(** Modelled from the spec: [LeStreamReader] (loader/file_utils, which is not
    among the sources), a cursor on a byte range.  The attribute table has
    "2 bytes" per entry, a "16-bit flag field", and "8 bytes discarded after
    reading".  A reader is the bytes from the cursor to the end of the
    range; reading or skipping past the end fails. *)
Definition LeStreamReader (A : Type) : Type :=
  ByteBuffer -> Result (A * ByteBuffer).

(** Modelled from the spec: the reads of [LeStreamReader]; a 16-bit value
    has its least significant byte first. *)
Definition readU8 : LeStreamReader Z := fun stream =>
  match stream with
  | byte :: rest => Ok (u8 byte, rest)
  | [] => Err OutOfBounds
  end.

Definition readU16 : LeStreamReader Z := fun stream =>
  lsb ← readU8 stream;
  msb ← readU8 lsb.2;
  Ok (Z.lor lsb.1 (Z.shiftl msb.1 8), msb.2).

(** Modelled from the spec: [LeStreamReader::skipBytes], which moves the
    cursor over bytes that are "discarded". *)
Definition skipBytes (count : nat) : LeStreamReader unit := fun stream =>
  if decide (count <= length stream)%nat
  then Ok (tt, drop count stream)
  else Err OutOfBounds.

(** ** [ResourceLoader] (src/loader/resource_loader.cpp) *)

Section ResourceLoader.
Context `{GameTraits} `{Collaborators}.

Record ResourceLoader : Type := mkResourceLoader {
  mGamePath : string;
  mFilePackage : CMPFilePackage;
  mAdlibSoundsPackage : AudioPackage
}.

Definition ANTI_PIRACY_SCREEN_FILENAME : string := "LCR.MNI".

Variable fs : FileSystem.
Variable self : ResourceLoader.

(** [ResourceLoader::file] *)
Definition file (name : string) : Result ByteBuffer :=
  let unpackedFilePath := mGamePath self </> name in
  if fs_exists fs unpackedFilePath
  then loadFile fs unpackedFilePath
  else package_file (mFilePackage self) name.

(** [ResourceLoader::hasFile] *)
Definition hasFile (name : string) : bool :=
  let unpackedFilePath := mGamePath self </> name in
  fs_exists fs unpackedFilePath || package_hasFile (mFilePackage self) name.

(** [loadReplacementTilesetIfPresent] *)
Definition loadReplacementTilesetIfPresent (gamePath name : string)
    : option Image :=
  replacement ← tilesetReplacementName name;
  loadPng fs (replacementPath gamePath replacement).

(** [ResourceLoader::loadTiledFullscreenImage], both overloads *)
Definition loadTiledFullscreenImage_with (name : string)
    (overridePalette : Palette16) : Result Image :=
  data ← file name;
  loadTiledImage data viewPortWidthTiles overridePalette Unmasked.

Definition loadTiledFullscreenImage (name : string) : Result Image :=
  loadTiledFullscreenImage_with name INGAME_PALETTE.

(** [ResourceLoader::loadAntiPiracyImage].  [iImageStart] splits the file
    after [256 * 3] bytes; the palette is read from the part before it and
    each byte after it is looked up in the palette. *)
Definition loadAntiPiracyImage : Result Image :=
  data ← file ANTI_PIRACY_SCREEN_FILENAME;
  palette ← load6bitPalette256 (take (256 * 3) data);
  let pixels :=
    (fun indexedPixel : byte => palette.1 !!! N.to_nat (Byte.to_N indexedPixel))
      <$> drop (256 * 3) data in
  Ok (mkImage pixels viewPortWidthPx viewPortHeightPx).

(** [ResourceLoader::loadBackdrop] *)
Definition loadBackdrop (name : string) : Result Image :=
  let replacementImage :=
    replacement ← backdropReplacementName name;
    loadPng fs (replacementPath (mGamePath self) replacement) in
  match replacementImage with
  | Some replacementImage => Ok replacementImage
  | None => loadTiledFullscreenImage name
  end.

(** The loop of [loadCZone] that fills [attributes]: [count] iterations are
    left, [index] is the loop variable. *)
Fixpoint readAttributes (count : nat) (index : Z) (attributes : list Z)
    : LeStreamReader (list Z) := fun attributeReader =>
  match count with
  | O => Ok (attributes, attributeReader)
  | S count' =>
      attribute ← readU16 attributeReader;
      skipped ← (if numSolidTiles <=? index
                 then skipBytes (2 * 4) attribute.2
                 else Ok (tt, attribute.2));
      readAttributes count' (index + 1) (attributes ++ [attribute.1]) skipped.2
  end.

(** The second half of [loadCZone], which decodes the pixels of the solid
    and of the masked tiles that follow the attribute table in [data] and
    puts the masked tiles below the solid ones. *)
Definition loadCZone_pixels (data : ByteBuffer) : Result Image :=
  let fullImage :=
    Image_new (tilesToPixels tileSetImageWidth)
              (tilesToPixels tileSetImageHeight) in
  let tiles := drop (Z.to_nat attributeBytesTotal) data in
  let solidTilesSize := Z.to_nat (numSolidTiles * tileBytes) in
  solidTilesImage ←
    loadTiledImage (take solidTilesSize tiles)
      tileSetImageWidth INGAME_PALETTE Unmasked;
  maskedTilesImage ←
    loadTiledImage (drop solidTilesSize tiles)
      tileSetImageWidth INGAME_PALETTE Masked;
  let fullImage := insertImage fullImage 0 0 solidTilesImage in
  Ok (insertImage fullImage 0 (tilesToPixels solidTilesImageHeight)
        maskedTilesImage).

(** [ResourceLoader::loadCZone].  A range of iterators into [data] is the
    part of [data] between them, which [take] and [drop] cut out; they stop
    at the end of [data], where the iterators of the C++ code would leave
    the buffer. *)
Definition loadCZone (name : string) : Result TileSet :=
  data ← file name;
  attributes ← readAttributes (Z.to_nat numTilesTotal) 0 []
                  (take (Z.to_nat attributeBytesTotal) data);
  match loadReplacementTilesetIfPresent (mGamePath self) name with
  | Some replacementImage => Ok (mkTileSet replacementImage attributes.1)
  | None =>
      fullImage ← loadCZone_pixels data;
      Ok (mkTileSet fullImage attributes.1)
  end.

(** [ResourceLoader::loadSound(const std::string&)] *)
Definition loadSound_name (name : string) : Result AudioBuffer :=
  data ← file name;
  decodeVoc data.

Definition introSoundFilenameFor (soundId : SoundId) : option string :=
  match soundId with
  | IntroGunShot => Some "INTRO3.MNI"
  | IntroGunShotLow => Some "INTRO4.MNI"
  | IntroEmptyShellsFalling => Some "INTRO5.MNI"
  | IntroTargetMovingCloser => Some "INTRO6.MNI"
  | IntroTargetStopsMoving => Some "INTRO7.MNI"
  | IntroDukeSpeaks1 => Some "INTRO8.MNI"
  | IntroDukeSpeaks2 => Some "INTRO9.MNI"
  | OtherSound _ => None
  end.

(** [std::to_string(int)] *)
Definition to_string (value : Z) : string :=
  NilZero.string_of_int (Z.to_int value).

Definition digitizedSoundFileName (id : SoundId) : string :=
  "SB_" +:+ to_string (soundOrdinal id + 1) +:+ ".MNI".

(** [ResourceLoader::loadSound(data::SoundId)] *)
Definition loadSound (id : SoundId) : Result AudioBuffer :=
  match introSoundFilenameFor id with
  | Some introSoundFilename => loadSound_name introSoundFilename
  | None =>
      if hasFile (digitizedSoundFileName id)
      then loadSound_name (digitizedSoundFileName id)
      else loadAdlibSound (mAdlibSoundsPackage self) id
  end.

End ResourceLoader.

(** ** The other loaders of [ResourceLoader] *)

(** The two constants of [data/game_traits.hpp] that give the size of a
    full-screen image; the header is not among the sources, so they are
    parameters too. *)
Class EgaTraits : Type := {
  pixelsPerEgaByte : Z;
  egaPlanes : Z
}.

(** The decoders of movies, songs, scripts and planar images, which are not
    among the sources either: parameters, nothing is assumed about them. *)
Class MediaDecoders : Type := {
  (** [decodeSimplePlanarEgaBuffer(begin, end, palette)] *)
  decodeSimplePlanarEgaBuffer : ByteBuffer -> Palette16 -> Result PixelBuffer;
  (** [data::Movie] and [loader::loadMovie] *)
  Movie : Type;
  loader_loadMovie : ByteBuffer -> Result Movie;
  (** [data::Song] and [loader::loadSong] *)
  Song : Type;
  loadSong : ByteBuffer -> Result Song;
  (** [ScriptBundle] and [loader::loadScripts] *)
  ScriptBundle : Type;
  loadScripts : string -> Result ScriptBundle;
  (** [asText] *)
  asText : ByteBuffer -> string
}.

Section OtherLoaders.
Context `{GameTraits} `{Collaborators} `{EgaTraits} `{MediaDecoders}.
Variable fs : FileSystem.
Variable self : ResourceLoader.

(** [FULL_SCREEN_IMAGE_DATA_SIZE]; the division of C++ integers rounds
    towards zero. *)
Definition FULL_SCREEN_IMAGE_DATA_SIZE : Z :=
  Z.quot (viewPortWidthPx * viewPortHeightPx)
         (Z.quot pixelsPerEgaByte egaPlanes).

(** [ResourceLoader::loadStandaloneFullscreenImage]: the palette is read
    from the bytes after the image data, then the image data is decoded
    with it. *)
Definition loadStandaloneFullscreenImage (name : string) : Result Image :=
  data ← file fs self name;
  let paletteStart := drop (Z.to_nat FULL_SCREEN_IMAGE_DATA_SIZE) data in
  palette ← load6bitPalette16 paletteStart;
  pixels ← decodeSimplePlanarEgaBuffer
              (take (Z.to_nat FULL_SCREEN_IMAGE_DATA_SIZE) data) palette.1;
  Ok (mkImage pixels viewPortWidthPx viewPortHeightPx).

(** [ResourceLoader::loadPaletteFromFullScreenImage] *)
Definition loadPaletteFromFullScreenImage (imageName : string)
    : Result Palette16 :=
  data ← file fs self imageName;
  let paletteStart := drop (Z.to_nat FULL_SCREEN_IMAGE_DATA_SIZE) data in
  palette ← load6bitPalette16 paletteStart;
  Ok palette.1.

(** [ResourceLoader::loadMovie]: the file is read with [loadFile] from the
    game directory, not resolved with [file]. *)
Definition loadMovie (name : string) : Result Movie :=
  data ← loadFile fs (mGamePath self </> name);
  loader_loadMovie data.

(** [ResourceLoader::loadMusic] *)
Definition loadMusic (name : string) : Result Song :=
  data ← file fs self name;
  loadSong data.

(** [ResourceLoader::fileAsText] *)
Definition fileAsText (name : string) : Result string :=
  data ← file fs self name;
  Ok (asText data).

(** [ResourceLoader::loadScriptBundle] *)
Definition loadScriptBundle (fileName : string) : Result ScriptBundle :=
  text ← fileAsText fileName;
  loadScripts text.

End OtherLoaders.

(** ** Concrete settings

    The statements below are exercised on the constants of the shipped game
    and on small stand-ins for the decoders. *)

Definition dukeNukem2Traits : GameTraits := {|
  viewPortWidthPx := 320;
  viewPortHeightPx := 200;
  viewPortWidthTiles := 40;
  numSolidTiles := 1000;
  numTilesTotal := 1160;
  attributeBytesTotal := 3600;
  tileBytes := 32;
  tileSetImageWidth := 40;
  tileSetImageHeight := 29;
  solidTilesImageHeight := 25
|}.

Definition grey (value : byte) : Pixel :=
  mkPixel (u8 value) (u8 value) (u8 value) 255.

(** A stand-in for the PNG decoder: the content must start with the first
    four bytes of the PNG signature; the following bytes are the pixels of
    a single row. *)
Definition sample_decodePng (bytes : ByteBuffer) : option Image :=
  match bytes with
  | x89 :: x50 :: x4e :: x47 :: rest =>
      Some (mkImage (grey <$> rest) (Z.of_nat (length rest)) 1)
  | _ => None
  end.

(** A stand-in for the tile decoder: whole tiles of 32 bytes only, two
    pixels a byte. *)
Definition sample_loadTiledImage (data : ByteBuffer) (widthInTiles : Z)
    (palette : Palette16) (type : TileImageType) : Result Image :=
  if decide (Z.of_nat (length data) mod 32 = 0)
  then Ok (mkImage (b ← data; [grey b; grey b]) (widthInTiles * 8)
             (Z.of_nat (length data) * 2 / (widthInTiles * 8)))
  else Err FormatError.

(** A stand-in for [insertImage] that is a blit for images of the width
    of the target placed in its first column. *)
Definition sample_insertImage (target : Image) (x y : Z) (source : Image)
    : Image :=
  let offset := Z.to_nat (y * width target + x) in
  mkImage
    (take (length (pixels target))
       (take offset (pixels target) ++ pixels source ++
        drop (offset + length (pixels source)) (pixels target)))
    (width target) (height target).

Definition sample_decodeVoc (data : ByteBuffer) : Result AudioBuffer :=
  match data with
  | x43 :: samples => Ok (mkAudioBuffer 11025 (u8 <$> samples))
  | _ => Err FormatError
  end.

Definition sample_soundOrdinal (id : SoundId) : Z :=
  match id with
  | IntroGunShot => 34
  | IntroGunShotLow => 35
  | IntroEmptyShellsFalling => 36
  | IntroTargetMovingCloser => 37
  | IntroTargetStopsMoving => 38
  | IntroDukeSpeaks1 => 39
  | IntroDukeSpeaks2 => 40
  | OtherSound n => if decide (n < 34)%nat then Z.of_nat n else Z.of_nat n + 7
  end.

Definition sampleCollaborators : Collaborators := {|
  decodePng := sample_decodePng;
  loadTiledImage := sample_loadTiledImage;
  INGAME_PALETTE := replicate 16 (mkPixel 0 0 0 255);
  Image_new := fun w h =>
    mkImage (replicate (Z.to_nat (w * h)) (mkPixel 0 0 0 0)) w h;
  insertImage := sample_insertImage;
  tilesToPixels := fun tiles => tiles * 8;
  decodeVoc := sample_decodeVoc;
  AudioPackage := unit;
  loadAdlibSound := fun _ id =>
    Ok (mkAudioBuffer 44100 [sample_soundOrdinal id]);
  soundOrdinal := sample_soundOrdinal
|}.

(** A game directory with an unpacked tile set, a replacement image for it,
    a file that is no image where the replacement of backdrop 1 is looked
    for, the anti-piracy screen and a digitized sound; an archive with an
    intro sound, a backdrop and a tile set. *)
Definition sampleOverride : ByteBuffer :=
  replicate 3600 x01 ++ replicate (Z.to_nat 38400) x02.

Definition samplePng : ByteBuffer := [x89; x50; x4e; x47; xff].

Definition sampleFs : FileSystem :=
  <["game/CZONE3.MNI" := sampleOverride]>
  (<["game/asset_replacements/tileset3.png" := samplePng]>
  (<["game/asset_replacements/backdrop1.png" := [x00]]>
  (<["game/LCR.MNI" := replicate 768 x3f ++ [x00; x05]]>
  (<["game/SB_35.MNI" := [x43; x07]]> ∅)))).

Definition samplePackage : CMPFilePackage :=
  mkPackage
    ([x43; x01; x02] ++ replicate 32 x03 ++ replicate (Z.to_nat 42000) x04)
    (<["intro3.mni" := (0, 3)%nat]>
     (<["drop1.mni" := (3, 32)%nat]>
     (<["czone3.mni" := (35%nat, Z.to_nat 42000)]> ∅))).

Definition sampleLoader : @ResourceLoader sampleCollaborators :=
  @mkResourceLoader sampleCollaborators "game" samplePackage tt.

Definition sampleMap : Map :=
  Map_new (mkTileSet (mkImage [] 0 0) []) (mkImage [] 0 0) None 4 3.

Definition dukeNukem2EgaTraits : EgaTraits := {|
  pixelsPerEgaByte := 8;
  egaPlanes := 4
|}.

(** Stand-ins for the other decoders: a movie, a song and a script bundle
    are the bytes, or the text, they are made from. *)
Definition sampleMediaDecoders : MediaDecoders := {|
  decodeSimplePlanarEgaBuffer := fun data palette =>
    Ok ((fun value : byte =>
           palette !!! N.to_nat (Byte.to_N value mod 16)%N) <$> data);
  Movie := ByteBuffer;
  loader_loadMovie := fun data =>
    match data with [] => Err FormatError | _ => Ok data end;
  Song := ByteBuffer;
  loadSong := fun data =>
    match data with [] => Err FormatError | _ => Ok data end;
  ScriptBundle := string;
  loadScripts := fun text => Ok text;
  asText := fun data => string_of_list_byte data
|}.

(** The game directory with, in addition, a replacement image for backdrop
    7, which exists nowhere else, the digitized file of the second intro
    sound, whose INTRO4.MNI is missing, and a stand-alone full-screen
    image. *)
Definition sampleFullscreen : ByteBuffer :=
  replicate (Z.to_nat 32000) x05 ++ replicate 48 x05.

Definition sampleFs2 : FileSystem :=
  <["game/asset_replacements/backdrop7.png" := samplePng]>
  (<["game/SB_36.MNI" := [x43; x09]]>
  (<["game/TITLE.MNI" := sampleFullscreen]> sampleFs)).

(** An attribute table, and the same table with another byte among those
    read over after the attribute of the first masked tile. *)
Definition sampleTable : ByteBuffer := replicate 3600 x01.

Definition sampleTable2 : ByteBuffer := <[2002%nat := xff]> sampleTable.

Definition emptyMap : Map :=
  Map_new (mkTileSet (mkImage [] 0 0) []) (mkImage [] 0 0) None 0 5.

(** ** Notions used in the statements *)

(** The positions [tileAt] and [setTileAt] reject. *)
Definition bad_position (m : Map) (layer x y : Z) : Prop :=
  layer < 0 \/ 2 <= layer \/
  x < 0 \/ mWidthInTiles m <= x \/
  y < 0 \/ mHeightInTiles m <= y.

(** The 16-bit value of two bytes, least significant first. *)
Definition u16le (lsb msb : byte) : Z := Z.lor (u8 lsb) (Z.shiftl (u8 msb) 8).

(** The bytes of the attribute table taken by [count] entries from entry
    [index] on: two for an entry of a solid tile, ten for an entry of a
    masked tile. *)
Fixpoint attributeBytes `{GameTraits} (count : nat) (index : Z) : nat :=
  match count with
  | O => 0
  | S count' =>
      (if numSolidTiles <=? index then 10 else 2) +
      attributeBytes count' (index + 1)
  end.

(** The naming convention of replacement files, as the design document
    words it: a tile set is named CZONE, one alphanumeric character, .MNI;
    a backdrop is named DROP, one or more digits, .MNI; letters in either
    case.  [n] is the part between the prefix and the extension. *)
Definition is_digit (c : ascii) : bool := in_range "0" "9" c.

Definition is_alnum (c : ascii) : bool :=
  in_range "0" "9" c || in_range "A" "Z" c || in_range "a" "z" c.

Fixpoint all_digits (s : string) : bool :=
  match s with
  | EmptyString => true
  | String c s' => is_digit c && all_digits s'
  end.

(** All characters of a string are in a bracket expression. *)
Fixpoint all_in_bracket (ranges : list (ascii * ascii)) (s : string) : bool :=
  match s with
  | EmptyString => true
  | String c s' => in_bracket true ranges c && all_in_bracket ranges s'
  end.

Definition is_tileset_name (name n : string) : Prop :=
  exists prefix c extension,
    name = prefix +:+ String c extension /\
    eq_nocase prefix "CZONE" /\
    is_alnum c = true /\
    eq_nocase extension ".MNI" /\
    n = String c "".

Definition is_backdrop_name (name n : string) : Prop :=
  exists prefix extension,
    name = prefix +:+ n +:+ extension /\
    eq_nocase prefix "DROP" /\
    n <> "" /\
    all_digits n = true /\
    eq_nocase extension ".MNI".

(** The priority the design document gives an unpacked file at the exact
    path of a tile set over a replacement image: the tile set is the one
    decoded from the unpacked file's bytes. *)
Definition exact_override_wins `{GameTraits} `{Collaborators}
    (fs : FileSystem) (self : ResourceLoader) (name : string) : Prop :=
  forall override replacementImage,
    fs !! (mGamePath self </> name) = Some override ->
    loadReplacementTilesetIfPresent fs (mGamePath self) name =
      Some replacementImage ->
    loadCZone fs self name =
      (attributes ← readAttributes (Z.to_nat numTilesTotal) 0 []
                      (take (Z.to_nat attributeBytesTotal) override);
       fullImage ← loadCZone_pixels override;
       Ok (mkTileSet fullImage attributes.1)).

(** The width of the image of a loaded tile set. *)
Definition loaded_width (loaded : Result TileSet) : option Z :=
  match loaded with
  | Ok tileSet => Some (width (image tileSet))
  | Err _ => None
  end.

(** * Properties *)

(** ** The tile grid *)

Lemma to_size_t_nonneg (v : Z) : 0 <= v < 2 ^ 31 -> to_size_t v = v.
Proof. intros Hv. unfold to_size_t. apply Z.mod_small. lia. Qed.

Lemma to_size_t_neg (v : Z) : - 2 ^ 31 <= v < 0 -> to_size_t v = v + 2 ^ 64.
Proof.
  intros Hv. unfold to_size_t.
  symmetry. apply (Z.mod_unique_pos v (2 ^ 64) (-1)); lia.
Qed.

(** A converted [int] is below a bound that is itself a non-negative [int]
    exactly when it was non-negative and below the bound. *)
Lemma to_size_t_below (v bound : Z) :
  int_range v -> 0 <= bound < 2 ^ 31 ->
  (bound <= to_size_t v <-> v < 0 \/ bound <= v).
Proof.
  unfold int_range. intros Hv Hb.
  destruct (Z.lt_ge_cases v 0) as [Hneg | Hpos].
  - rewrite to_size_t_neg by lia. lia.
  - rewrite to_size_t_nonneg by lia. lia.
Qed.

Lemma tileRefAt_throws (m : Map) (layer x y : Z) :
  Map_wf m -> int_range layer -> int_range x -> int_range y ->
  bad_position m layer x y ->
  exists what, tileRefAt m layer x y = Err (InvalidArgument what).
Proof.
  intros Hwf Hl Hx Hy Hbad. unfold tileRefAt.
  rewrite (wf_layers _ Hwf).
  pose proof (to_size_t_below layer 2 Hl ltac:(lia)) as Bl.
  pose proof (to_size_t_below x _ Hx (wf_width _ Hwf)) as Bx.
  pose proof (to_size_t_below y _ Hy (wf_height _ Hwf)) as By.
  repeat case_match; eauto.
  unfold bad_position in Hbad.
  rewrite Z.leb_gt in *. change (Z.of_nat 2) with 2 in *. lia.
Qed.

Lemma tileRefAt_returns (m : Map) (layer x y : Z) :
  Map_wf m -> int_range layer -> int_range x -> int_range y ->
  ~ bad_position m layer x y ->
  tileRefAt m layer x y =
    Ok (Z.to_nat layer, Z.to_nat (x + y * mWidthInTiles m)).
Proof.
  intros Hwf Hl Hx Hy Hgood. unfold tileRefAt, bad_position in *.
  destruct Hwf as [Hw Hh Ha Hlen _]. unfold int_range in *.
  rewrite Hlen. change (Z.of_nat 2) with 2.
  rewrite !to_size_t_nonneg by lia.
  assert (0 <= x + y * mWidthInTiles m < 2 ^ 31) by nia.
  rewrite to_size_t_nonneg by lia.
  repeat case_match; try reflexivity; rewrite Z.leb_le in *; lia.
Qed.

(** Inside the grid the cell the reference names is there. *)
Lemma readRef_inside (m : Map) (layer x y : Z) :
  Map_wf m -> int_range layer -> int_range x -> int_range y ->
  ~ bad_position m layer x y ->
  is_Some (readRef m (Z.to_nat layer, Z.to_nat (x + y * mWidthInTiles m))).
Proof.
  intros Hwf Hl Hx Hy Hgood. unfold readRef, bad_position in *. simpl.
  destruct (mLayers m !! Z.to_nat layer) as [row |] eqn:Hrow.
  - simpl. apply lookup_lt_is_Some.
    assert (row ∈ mLayers m) as Hin by (eapply list_elem_of_lookup_2; eauto).
    pose proof (wf_rows _ Hwf row Hin) as Hr.
    destruct Hwf as [Hw Hh Ha _ _]. nia.
  - apply lookup_ge_None in Hrow. rewrite (wf_layers _ Hwf) in Hrow. lia.
Qed.

(** The constructor establishes the invariant and [setTileAt] keeps it. *)
Lemma Map_new_wf tileSet backdrop secondary (w h : Z) :
  0 <= w < 2 ^ 31 -> 0 <= h < 2 ^ 31 -> w * h < 2 ^ 31 ->
  Map_wf (Map_new tileSet backdrop secondary w h).
Proof.
  intros Hw Hh Ha.
  split; simpl; rewrite ?to_size_t_nonneg by lia; try lia.
  intros row Hrow.
  repeat (apply elem_of_cons in Hrow as [-> | Hrow]);
    [| | by apply elem_of_nil in Hrow];
    rewrite length_replicate; nia.
Qed.

Lemma writeRef_wf (m : Map) (ref : TileRef) (index : TileIndex) :
  Map_wf m -> Map_wf (writeRef m ref index).
Proof.
  intros [Hw Hh Ha Hlen Hrows]. split; simpl; try assumption.
  - by rewrite length_alter.
  - intros row Hrow.
    apply list_elem_of_lookup in Hrow as [i Hi].
    destruct (decide (i = ref.1)) as [-> | Hne].
    + rewrite list_lookup_alter_eq in Hi.
      destruct (mLayers m !! ref.1) as [old |] eqn:Hold; [| discriminate].
      simpl in Hi. injection Hi as <-.
      rewrite length_insert. apply Hrows. eapply list_elem_of_lookup_2; eauto.
    + rewrite list_lookup_alter_ne in Hi by done.
      apply Hrows. eapply list_elem_of_lookup_2; eauto.
Qed.

Lemma setTileAt_wf `{GameTraits} (m : Map) (layer x y : Z) (index : TileIndex) :
  Map_wf m -> Map_wf (setTileAt m layer x y index).2.
Proof.
  intros Hwf. unfold setTileAt.
  repeat case_match; simpl; auto using writeRef_wf.
Qed.

Lemma tileAt_inside (m : Map) (layer x y : Z) :
  Map_wf m -> int_range layer -> int_range x -> int_range y ->
  ~ bad_position m layer x y ->
  exists row index,
    mLayers m !! Z.to_nat layer = Some row /\
    row !! Z.to_nat (x + y * mWidthInTiles m) = Some index /\
    tileAt m layer x y = Ok index.
Proof.
  intros Hwf Hl Hx Hy Hgood. unfold tileAt.
  rewrite tileRefAt_returns by assumption. simpl.
  destruct (readRef_inside m layer x y Hwf Hl Hx Hy Hgood) as [index Hread].
  rewrite Hread. unfold readRef in Hread. simpl in Hread.
  destruct (mLayers m !! Z.to_nat layer) as [row |]; [| discriminate].
  exists row, index. auto.
Qed.

(** The outcome of [setTileAt], case by case. *)
Lemma setTileAt_outcome `{GameTraits}
    (m : Map) (layer x y : Z) (index : TileIndex) :
  Map_wf m -> int_range layer -> int_range x -> int_range y ->
  (numTilesTotal <= index \/ bad_position m layer x y) /\
    (exists what,
       setTileAt m layer x y index = (Err (InvalidArgument what), m))
  \/
  ~ (numTilesTotal <= index \/ bad_position m layer x y) /\
    setTileAt m layer x y index =
      (Ok tt,
       writeRef m (Z.to_nat layer, Z.to_nat (x + y * mWidthInTiles m)) index).
Proof.
  intros Hwf Hl Hx Hy. unfold setTileAt.
  destruct (Z.leb_spec numTilesTotal index) as [Hbig | Hsmall].
  { left. split; [lia | eauto]. }
  assert (bad_position m layer x y \/ ~ bad_position m layer x y)
    as [Hbad | Hgood] by (unfold bad_position; lia).
  - destruct (tileRefAt_throws m layer x y Hwf Hl Hx Hy Hbad) as [what ->].
    left. split; [tauto | eauto].
  - rewrite tileRefAt_returns by assumption.
    right. split; [| reflexivity]. intros [? | ?]; [lia | tauto].
Qed.

(** C10.  On a constructed map and for [int] arguments, [setTileAt] throws
    [std::invalid_argument] exactly when the tile index is not below the
    tile set's total tile count or the layer, x or y is negative or not below
    2, the width or the height; a call that throws leaves the map as it was;
    [tileAt] throws under the same conditions on layer, x and y, and
    otherwise returns the tile stored at [x + y*width] of that layer. *)
Theorem setTileAt_tileAt_bounds `{GameTraits}
    (m : Map) (layer x y : Z) (index : TileIndex) :
  Map_wf m -> int_range layer -> int_range x -> int_range y ->
  ((exists what,
      (setTileAt m layer x y index).1 = Err (InvalidArgument what)) <->
   (numTilesTotal <= index \/ bad_position m layer x y)) /\
  ((setTileAt m layer x y index).1 = Ok tt <->
   ~ (numTilesTotal <= index \/ bad_position m layer x y)) /\
  ((setTileAt m layer x y index).1 <> Ok tt ->
   (setTileAt m layer x y index).2 = m) /\
  ((exists what, tileAt m layer x y = Err (InvalidArgument what)) <->
   bad_position m layer x y) /\
  (~ bad_position m layer x y ->
   exists row stored,
     mLayers m !! Z.to_nat layer = Some row /\
     row !! Z.to_nat (x + y * mWidthInTiles m) = Some stored /\
     tileAt m layer x y = Ok stored).
Proof.
  intros Hwf Hl Hx Hy.
  assert ((exists what, tileAt m layer x y = Err (InvalidArgument what)) <->
          bad_position m layer x y) as Hat.
  { split.
    - intros [what Hthrow].
      assert (bad_position m layer x y \/ ~ bad_position m layer x y)
        as [Hbad | Hgood] by (unfold bad_position; lia); [assumption |].
      destruct (tileAt_inside m layer x y Hwf Hl Hx Hy Hgood)
        as (? & ? & _ & _ & Hok).
      congruence.
    - intros Hbad. unfold tileAt.
      destruct (tileRefAt_throws m layer x y Hwf Hl Hx Hy Hbad) as [what ->].
      eauto. }
  destruct (setTileAt_outcome m layer x y index Hwf Hl Hx Hy)
    as [[Hcond [what ->]] | [Hcond ->]]; simpl.
  - split; [split; [intros _; exact Hcond | intros _; eauto] |].
    split; [split; [discriminate | intros Hn; tauto] |].
    split; [done |].
    split; [exact Hat | by apply tileAt_inside].
  - split; [split; [intros [? ?]; discriminate | intros ?; tauto] |].
    split; [split; [intros _; exact Hcond | done] |].
    split; [intros Hne; by destruct Hne |].
    split; [exact Hat | by apply tileAt_inside].
Qed.

(** What a successful [setTileAt] stores is what [tileAt] then returns. *)
Lemma tileAt_setTileAt `{GameTraits}
    (m : Map) (layer x y : Z) (index : TileIndex) :
  Map_wf m -> int_range layer -> int_range x -> int_range y ->
  (setTileAt m layer x y index).1 = Ok tt ->
  tileAt (setTileAt m layer x y index).2 layer x y = Ok index.
Proof.
  intros Hwf Hl Hx Hy Hok.
  destruct (setTileAt_outcome m layer x y index Hwf Hl Hx Hy)
    as [[_ [what Hset]] | [Hcond Hset]]; rewrite Hset in *; [discriminate |].
  assert (~ bad_position m layer x y) as Hgood by tauto.
  destruct (tileAt_inside m layer x y Hwf Hl Hx Hy Hgood)
    as (row & stored & Hrow & Hcell & _).
  pose proof (tileRefAt_returns m layer x y Hwf Hl Hx Hy Hgood) as Href.
  simpl. unfold tileAt, tileRefAt in *. simpl.
  rewrite length_alter.
  destruct (_ <=? _); [discriminate |].
  destruct (_ <=? _); [discriminate |].
  destruct (_ <=? _); [discriminate |].
  injection Href as -> ->. simpl.
  unfold readRef. simpl.
  rewrite list_lookup_alter_eq, Hrow. simpl.
  rewrite list_lookup_insert_eq; [done |].
  by apply lookup_lt_Some in Hcell.
Qed.

(** ** Resolving a name to bytes *)

Section FileResolution.
Context `{Collaborators}.
Variables (fs : FileSystem) (self : ResourceLoader).

Lemma file_unpacked (name : string) (bytes : ByteBuffer) :
  fs !! (mGamePath self </> name) = Some bytes ->
  file fs self name = Ok bytes.
Proof.
  intros Hfile. unfold file, fs_exists, loadFile. rewrite Hfile.
  rewrite bool_decide_eq_true_2 by eauto. reflexivity.
Qed.

Lemma file_packed (name : string) :
  fs !! (mGamePath self </> name) = None ->
  file fs self name = package_file (mFilePackage self) name.
Proof.
  intros Hfile. unfold file, fs_exists. rewrite Hfile.
  rewrite bool_decide_eq_false_2; [reflexivity |].
  intros [? ?]; discriminate.
Qed.

Lemma package_hasFile_entry (pkg : CMPFilePackage) (name : string) :
  package_hasFile pkg name = true <-> is_Some (package_entry pkg name).
Proof.
  unfold package_hasFile, package_entry.
  rewrite bool_decide_eq_true.
  destruct (mFileDict pkg !! lower_string name); simpl; split;
    intros [? ?]; eauto; discriminate.
Qed.

(** [hasFile] answers whether [file] would return. *)
Lemma hasFile_file (name : string) :
  hasFile fs self name = true <-> is_Ok (file fs self name).
Proof.
  unfold hasFile.
  destruct (fs !! (mGamePath self </> name)) as [bytes |] eqn:Hfile.
  - rewrite (file_unpacked _ _ Hfile). unfold fs_exists. rewrite Hfile.
    rewrite bool_decide_eq_true_2 by eauto. simpl. tauto.
  - rewrite (file_packed _ Hfile). unfold fs_exists. rewrite Hfile.
    rewrite bool_decide_eq_false_2 by (intros [? ?]; discriminate). simpl.
    rewrite package_hasFile_entry. unfold package_file.
    destruct (package_entry _ _); simpl; split; try tauto; eauto.
    intros [? ?]; discriminate.
Qed.

(** C3.  [file(name)] returns the bytes of the unpacked file at the path of
    that name under the game directory when there is one, whatever the
    archive holds; otherwise the bytes of the archive's entry; and it fails,
    with NotFoundError, exactly when there is neither. *)
Theorem file_resolution (name : string) :
  (forall bytes,
     fs !! (mGamePath self </> name) = Some bytes ->
     file fs self name = Ok bytes) /\
  (forall bytes,
     fs !! (mGamePath self </> name) = None ->
     package_entry (mFilePackage self) name = Some bytes ->
     file fs self name = Ok bytes) /\
  (file fs self name = Err NotFoundError <->
   fs !! (mGamePath self </> name) = None /\
   package_entry (mFilePackage self) name = None) /\
  (forall e, file fs self name = Err e -> e = NotFoundError).
Proof.
  split; [apply file_unpacked |].
  split.
  { intros bytes Hfile Hentry. rewrite (file_packed _ Hfile).
    unfold package_file. by rewrite Hentry. }
  destruct (fs !! (mGamePath self </> name)) as [bytes |] eqn:Hfile.
  - rewrite (file_unpacked _ _ Hfile).
    split; [split; [discriminate | intros [? _]; discriminate] | discriminate].
  - rewrite (file_packed _ Hfile). unfold package_file.
    destruct (package_entry _ _).
    + split; [split; [discriminate | intros [_ ?]; discriminate]
             | discriminate].
    + split; [tauto | congruence].
Qed.

End FileResolution.

(** ** Sounds *)

Section Sound.
Context `{Collaborators}.
Variables (fs : FileSystem) (self : ResourceLoader).

Lemma loadSound_intro (id : SoundId) (introSoundFilename : string) :
  introSoundFilenameFor id = Some introSoundFilename ->
  loadSound fs self id = loadSound_name fs self introSoundFilename.
Proof. intros Hintro. unfold loadSound. by rewrite Hintro. Qed.

Lemma loadSound_digitized (id : SoundId) (data : ByteBuffer) :
  introSoundFilenameFor id = None ->
  file fs self (digitizedSoundFileName id) = Ok data ->
  loadSound fs self id = decodeVoc data.
Proof.
  intros Hintro Hfile. unfold loadSound. rewrite Hintro.
  assert (hasFile fs self (digitizedSoundFileName id) = true) as ->.
  { apply hasFile_file. by rewrite Hfile. }
  unfold loadSound_name. by rewrite Hfile.
Qed.

Lemma loadSound_synthesized (id : SoundId) :
  introSoundFilenameFor id = None ->
  ~ is_Ok (file fs self (digitizedSoundFileName id)) ->
  loadSound fs self id = loadAdlibSound (mAdlibSoundsPackage self) id.
Proof.
  intros Hintro Hfile. unfold loadSound. rewrite Hintro.
  destruct (hasFile fs self (digitizedSoundFileName id)) eqn:Hhas;
    [| reflexivity].
  apply hasFile_file in Hhas. contradiction.
Qed.

(** C2.  [loadSound(id)] resolves its source in a fixed order: the seven
    intro ids are mapped to INTRO3.MNI .. INTRO9.MNI and that file is
    VOC-decoded, whether or not a digitized file for the id exists; for any
    other id the file SB_<ordinal+1>.MNI is VOC-decoded when it exists;
    otherwise the sound is synthesized from the AdLib package. *)
Theorem loadSound_resolution_order (id : SoundId) :
  introSoundFilenameFor <$>
    [IntroGunShot; IntroGunShotLow; IntroEmptyShellsFalling;
     IntroTargetMovingCloser; IntroTargetStopsMoving;
     IntroDukeSpeaks1; IntroDukeSpeaks2] =
  Some <$>
    ["INTRO3.MNI"; "INTRO4.MNI"; "INTRO5.MNI"; "INTRO6.MNI"; "INTRO7.MNI";
     "INTRO8.MNI"; "INTRO9.MNI"] /\
  (forall n, introSoundFilenameFor (OtherSound n) = None) /\
  digitizedSoundFileName id =
    "SB_" +:+ to_string (soundOrdinal id + 1) +:+ ".MNI" /\
  (forall introSoundFilename,
     introSoundFilenameFor id = Some introSoundFilename ->
     loadSound fs self id =
       (data ← file fs self introSoundFilename; decodeVoc data)) /\
  (forall data,
     introSoundFilenameFor id = None ->
     file fs self (digitizedSoundFileName id) = Ok data ->
     loadSound fs self id = decodeVoc data) /\
  (introSoundFilenameFor id = None ->
   ~ is_Ok (file fs self (digitizedSoundFileName id)) ->
   loadSound fs self id = loadAdlibSound (mAdlibSoundsPackage self) id).
Proof.
  split; [reflexivity |].
  split; [reflexivity |].
  split; [reflexivity |].
  split; [apply loadSound_intro |].
  split; [intros data; apply loadSound_digitized |].
  apply loadSound_synthesized.
Qed.

End Sound.

(** ** Palettes *)

Lemma scale6to8_nearest (v : Z) :
  2 * Z.abs (63 * scale6to8 v - 255 * v) < 63.
Proof.
  unfold scale6to8, round_div.
  pose proof (Z.div_mod (2 * (v * 255) + 63) (2 * 63) ltac:(lia)) as Hdiv.
  pose proof (Z.mod_pos_bound (2 * (v * 255) + 63) (2 * 63) ltac:(lia)) as Hmod.
  lia.
Qed.

Lemma scale6to8_unique (v n : Z) :
  2 * Z.abs (63 * n - 255 * v) < 63 -> n = scale6to8 v.
Proof. pose proof (scale6to8_nearest v). lia. Qed.

Lemma scale6to8_monotone (v1 v2 : Z) :
  v1 <= v2 -> scale6to8 v1 <= scale6to8 v2.
Proof.
  intros Hle. unfold scale6to8, round_div.
  apply Z.div_le_mono; lia.
Qed.

Lemma scale6to8_range (v : Z) : 0 <= v <= 63 -> 0 <= scale6to8 v <= 255.
Proof.
  intros Hv.
  change 0 with (scale6to8 0) at 1. change 255 with (scale6to8 63).
  split; apply scale6to8_monotone; lia.
Qed.

(** The palette decoder takes three bytes an entry from the front of its
    input and nothing else. *)
Lemma load6bitPalette_consumes (count : nat) (bytes : ByteBuffer) :
  (3 * count <= length bytes)%nat ->
  exists palette,
    load6bitPalette count bytes = Ok (palette, drop (3 * count) bytes) /\
    length palette = count /\
    forall k r g b,
      (k < count)%nat ->
      bytes !! (3 * k)%nat = Some r ->
      bytes !! (3 * k + 1)%nat = Some g ->
      bytes !! (3 * k + 2)%nat = Some b ->
      palette !! k =
        Some (mkPixel (scale6to8 (u8 r)) (scale6to8 (u8 g))
                (scale6to8 (u8 b)) 255).
Proof.
  revert bytes. induction count as [| count IH]; intros bytes Hlen.
  - exists []. simpl. rewrite drop_0. repeat split; auto. intros; lia.
  - destruct bytes as [| r0 [| g0 [| b0 rest]]];
      try (cbn [length] in Hlen; lia).
    destruct (IH rest ltac:(cbn [length] in Hlen; lia))
      as (palette & Hload & Hsize & Hentry).
    eexists. cbn [load6bitPalette]. rewrite Hload.
    replace (3 * S count)%nat with (S (S (S (3 * count)))) by lia.
    split; [reflexivity |]. split; [cbn [length fst]; lia |].
    intros [| k] r g b Hk Hr Hg Hb.
    + cbn in Hr, Hg, Hb. cbn. congruence.
    + replace (3 * S k)%nat with (S (S (S (3 * k)))) in * by lia.
      apply (Hentry k r g b); [lia | exact Hr | exact Hg | exact Hb].
Qed.

Lemma load6bitPalette_short (count : nat) (bytes : ByteBuffer) :
  (length bytes < 3 * count)%nat ->
  load6bitPalette count bytes = Err FormatError.
Proof.
  revert bytes. induction count as [| count IH]; intros bytes Hlen; [lia |].
  destruct bytes as [| r0 [| g0 [| b0 rest]]]; try reflexivity.
  cbn [load6bitPalette]. rewrite IH; [reflexivity |]. simpl in Hlen. lia.
Qed.

(** C6.  A 6-bit channel value [v] is decoded to the integer nearest to
    [v * 255 / 63] (the only integer less than one half away from it), the
    scaling is monotonic and maps 0..63 into 0..255; [load16] consumes
    exactly 48 bytes and [load256] exactly 768, and each fails with
    FormatError when fewer bytes remain. *)
Theorem palette_scaling_and_consumption :
  (forall v, 0 <= v <= 63 ->
     2 * Z.abs (63 * scale6to8 v - 255 * v) < 63 /\
     (forall n, 2 * Z.abs (63 * n - 255 * v) < 63 -> n = scale6to8 v) /\
     0 <= scale6to8 v <= 255) /\
  (forall v1 v2, v1 <= v2 -> scale6to8 v1 <= scale6to8 v2) /\
  (forall bytes,
     ((48 <= length bytes)%nat ->
      exists palette,
        load6bitPalette16 bytes = Ok (palette, drop 48 bytes) /\
        length palette = 16%nat) /\
     ((length bytes < 48)%nat -> load6bitPalette16 bytes = Err FormatError)) /\
  (forall bytes,
     ((768 <= length bytes)%nat ->
      exists palette,
        load6bitPalette256 bytes = Ok (palette, drop 768 bytes) /\
        length palette = 256%nat) /\
     ((length bytes < 768)%nat ->
      load6bitPalette256 bytes = Err FormatError)).
Proof.
  split.
  { intros v Hv. split; [apply scale6to8_nearest |].
    split; [intros n; apply scale6to8_unique | by apply scale6to8_range]. }
  split; [apply scale6to8_monotone |].
  split; intros bytes; (split; [intros Hlen | intros Hlen]).
  - destruct (load6bitPalette_consumes 16 bytes Hlen) as (p & ? & ? & _).
    eauto.
  - by apply load6bitPalette_short.
  - destruct (load6bitPalette_consumes 256 bytes Hlen) as (p & ? & ? & _).
    eauto.
  - by apply load6bitPalette_short.
Qed.

(** ** The anti-piracy screen *)

Section AntiPiracy.
Context `{GameTraits} `{Collaborators}.
Variables (fs : FileSystem) (self : ResourceLoader).

(** C7.  The anti-piracy image is read from a layout of its own: the first
    768 bytes of LCR.MNI are a palette of 256 colours, three bytes a colour,
    and each byte after them is the palette index of one pixel, in order:
    pixel [i] is [palette[data[768 + i]]]; the image has the width and the
    height of the view port. *)
Theorem loadAntiPiracyImage_layout (data : ByteBuffer) :
  file fs self "LCR.MNI" = Ok data ->
  (768 <= length data)%nat ->
  exists palette image,
    load6bitPalette256 (take 768 data) = Ok (palette, []) /\
    length palette = 256%nat /\
    (forall k r g b,
       (k < 256)%nat ->
       data !! (3 * k)%nat = Some r ->
       data !! (3 * k + 1)%nat = Some g ->
       data !! (3 * k + 2)%nat = Some b ->
       palette !! k =
         Some (mkPixel (scale6to8 (u8 r)) (scale6to8 (u8 g))
                 (scale6to8 (u8 b)) 255)) /\
    loadAntiPiracyImage fs self = Ok image /\
    width image = viewPortWidthPx /\
    height image = viewPortHeightPx /\
    length (pixels image) = (length data - 768)%nat /\
    (forall i indexedPixel,
       data !! (768 + i)%nat = Some indexedPixel ->
       exists color,
         palette !! N.to_nat (Byte.to_N indexedPixel) = Some color /\
         pixels image !! i = Some color).
Proof.
  intros Hfile Hlen.
  destruct (load6bitPalette_consumes 256 (take 768 data))
    as (palette & Hload & Hsize & Hentry).
  { rewrite length_take. lia. }
  rewrite drop_ge in Hload by (rewrite length_take; lia).
  exists palette. eexists.
  split; [exact Hload |]. split; [exact Hsize |].
  split.
  { intros k r g b Hk Hr Hg Hb.
    apply Hentry; [exact Hk | | |]; rewrite lookup_take_lt by lia; assumption. }
  unfold loadAntiPiracyImage, ANTI_PIRACY_SCREEN_FILENAME.
  rewrite Hfile. cbn [mbind Result_bind].
  change (256 * 3)%nat with 768%nat. unfold load6bitPalette256.
  rewrite Hload. cbn [mbind Result_bind fst].
  split; [reflexivity |]. cbn [width height pixels].
  split; [reflexivity |]. split; [reflexivity |].
  split; [by rewrite length_fmap, length_drop |].
  intros i indexedPixel Hbyte.
  assert (is_Some (palette !! N.to_nat (Byte.to_N indexedPixel)))
    as [color Hcolor].
  { apply lookup_lt_is_Some. rewrite Hsize.
    pose proof (Byte.to_N_bounded indexedPixel). lia. }
  exists color. split; [exact Hcolor |].
  rewrite list_lookup_fmap, lookup_drop, Hbyte. simpl.
  f_equal. by apply list_lookup_total_correct.
Qed.

End AntiPiracy.

(** ** The attribute table of a tile set *)

Section Attributes.
Context `{GameTraits}.

Lemma readU16_cons (lsb msb : byte) (stream : ByteBuffer) :
  readU16 (lsb :: msb :: stream) = Ok (u16le lsb msb, stream).
Proof. reflexivity. Qed.

Lemma readU16_short (stream : ByteBuffer) :
  (length stream < 2)%nat -> readU16 stream = Err OutOfBounds.
Proof.
  destruct stream as [| lsb [| msb stream]]; simpl; intros; try reflexivity.
  lia.
Qed.

Lemma u16le_range (lsb msb : byte) :
  u16le lsb msb = u8 lsb + 256 * u8 msb /\ 0 <= u16le lsb msb < 65536.
Proof.
  unfold u16le, u8.
  pose proof (Byte.to_N_bounded lsb). pose proof (Byte.to_N_bounded msb).
  assert (Z.lor (Z.of_N (Byte.to_N lsb)) (Z.shiftl (Z.of_N (Byte.to_N msb)) 8)
          = Z.of_N (Byte.to_N lsb) + 256 * Z.of_N (Byte.to_N msb)) as ->.
  { rewrite Z.shiftl_mul_pow2 by lia.
    rewrite <- Z.lxor_lor.
    - rewrite <- Z.add_nocarry_lxor; [lia |].
      apply Z.bits_inj_0. intros n. rewrite Z.land_spec.
      destruct (Z.ltb_spec n 8).
      + rewrite (Z.mul_pow2_bits_low _ _ _ H2). apply andb_false_r.
      + destruct (Z.ltb_spec n 0); [by rewrite !Z.testbit_neg_r by lia |].
        rewrite (Z.bits_above_log2 (Z.of_N (Byte.to_N lsb))); [done | lia |].
        destruct (decide (Byte.to_N lsb = 0%N)) as [-> | Hnz]; [simpl; lia |].
        apply Z.log2_lt_pow2; [lia |].
        apply Z.lt_le_trans with (2 ^ 8); [lia |].
        apply Z.pow_le_mono_r; lia.
    - apply Z.bits_inj_0. intros n. rewrite Z.land_spec.
      destruct (Z.ltb_spec n 8).
      + rewrite (Z.mul_pow2_bits_low _ _ _ H2). apply andb_false_r.
      + destruct (Z.ltb_spec n 0); [by rewrite !Z.testbit_neg_r by lia |].
        rewrite (Z.bits_above_log2 (Z.of_N (Byte.to_N lsb))); [done | lia |].
        destruct (decide (Byte.to_N lsb = 0%N)) as [-> | Hnz]; [simpl; lia |].
        apply Z.log2_lt_pow2; [lia |].
        apply Z.lt_le_trans with (2 ^ 8); [lia |].
        apply Z.pow_le_mono_r; lia. }
  lia.
Qed.

Lemma attributeBytes_succ (count : nat) (index : Z) :
  attributeBytes (S count) index =
  ((if (numSolidTiles <=? index)%Z then 10 else 2) +
   attributeBytes count (index + 1)%Z)%nat.
Proof. reflexivity. Qed.

(** Bytes taken by the first [count] entries, counted from entry [index]. *)
Lemma attributeBytes_closed (count : nat) (index : Z) :
  Z.of_nat (attributeBytes count index) =
  2 * Z.of_nat count +
  8 * Z.max 0 (index + Z.of_nat count - Z.max index numSolidTiles).
Proof.
  revert index. induction count as [| count IH]; intros index.
  - simpl. lia.
  - rewrite attributeBytes_succ, Nat2Z.inj_add, IH.
    destruct (Z.leb_spec numSolidTiles index); lia.
Qed.

Lemma attributeBytes_mono (i count : nat) (index : Z) :
  (i <= count)%nat ->
  (attributeBytes i index <= attributeBytes count index)%nat.
Proof.
  intros Hle. apply Nat2Z.inj_le. rewrite !attributeBytes_closed. lia.
Qed.

(** The loop reads entry [i] from the offset the layout gives it. *)
Lemma readAttributes_returns (count : nat) :
  forall (index : Z) (attributes : list Z) (stream : ByteBuffer),
  (attributeBytes count index <= length stream)%nat ->
  exists new,
    readAttributes count index attributes stream =
      Ok (attributes ++ new, drop (attributeBytes count index) stream) /\
    length new = count /\
    forall i lsb msb,
      (i < count)%nat ->
      stream !! attributeBytes i index = Some lsb ->
      stream !! (attributeBytes i index + 1)%nat = Some msb ->
      new !! i = Some (u16le lsb msb).
Proof.
  induction count as [| count IH]; intros index attributes stream Hlen.
  - exists []. simpl. rewrite app_nil_r, drop_0.
    repeat split; auto. intros; lia.
  - rewrite attributeBytes_succ in Hlen.
    set (step := if numSolidTiles <=? index then 10%nat else 2%nat) in *.
    assert (2 <= step)%nat as Hstep by (subst step; case_match; lia).
    destruct stream as [| lsb0 [| msb0 stream]];
      try (cbn [length] in Hlen; lia).
    assert (exists after,
      (if numSolidTiles <=? index
       then skipBytes (2 * 4) stream
       else Ok (tt, stream)) = Ok (tt, after) /\
      after = drop step (lsb0 :: msb0 :: stream)) as (after & Hskip & Hafter).
    { subst step. destruct (numSolidTiles <=? index).
      - unfold skipBytes. cbn [length] in Hlen.
        rewrite decide_True by lia. eauto.
      - eauto. }
    destruct (IH (index + 1) (attributes ++ [u16le lsb0 msb0]) after)
      as (new & Hread & Hsize & Hentry).
    { subst after. rewrite length_drop. lia. }
    exists (u16le lsb0 msb0 :: new).
    cbn [readAttributes]. rewrite readU16_cons.
    cbn [mbind Result_bind fst snd]. rewrite Hskip.
    cbn [mbind Result_bind fst snd]. rewrite Hread.
    split.
    { rewrite <- app_assoc. cbn [app]. subst after.
      rewrite drop_drop, attributeBytes_succ. fold step.
      do 3 f_equal. }
    split; [cbn [length]; lia |].
    intros [| i] lsb msb Hi Hlsb Hmsb.
    + cbn in Hlsb, Hmsb. cbn. congruence.
    + rewrite attributeBytes_succ in Hlsb, Hmsb. fold step in Hlsb, Hmsb.
      cbn [lookup list_lookup].
      apply (Hentry i lsb msb); [lia | |]; subst after;
        rewrite lookup_drop; [exact Hlsb |].
      rewrite <- Hmsb. f_equal. lia.
Qed.

(** With fewer bytes than the layout needs the loop fails. *)
Lemma readAttributes_short (count : nat) :
  forall (index : Z) (attributes : list Z) (stream : ByteBuffer),
  (length stream < attributeBytes count index)%nat ->
  readAttributes count index attributes stream = Err OutOfBounds.
Proof.
  induction count as [| count IH]; intros index attributes stream Hlen.
  - simpl in Hlen. lia.
  - rewrite attributeBytes_succ in Hlen. cbn [readAttributes].
    destruct stream as [| lsb0 [| msb0 stream]]; try reflexivity.
    rewrite readU16_cons. cbn [mbind Result_bind fst snd length] in *.
    destruct (numSolidTiles <=? index).
    + unfold skipBytes. destruct (decide _) as [Hfits | ?]; [| reflexivity].
      cbn [mbind Result_bind fst snd]. apply IH. rewrite length_drop. lia.
    + cbn [mbind Result_bind fst snd]. apply IH. lia.
Qed.

(** C5.  Whenever the attribute table decodes, it has exactly as many
    entries as the tile set has tiles; the entry of solid tile [i] is the
    two bytes at offset [2 * i]; the entry of a masked tile is the two bytes
    at the start of its ten bytes, the other eight being read over; the
    loop consumes [2 * solid + 10 * masked] bytes and decodes exactly when
    the table has that many. *)
Theorem attribute_table_layout (data : ByteBuffer) :
  0 <= numSolidTiles <= numTilesTotal ->
  let solid := Z.to_nat numSolidTiles in
  let total := Z.to_nat numTilesTotal in
  let table := take (Z.to_nat attributeBytesTotal) data in
  (is_Ok (readAttributes total 0 [] table) <->
   (2 * solid + 10 * (total - solid) <= length table)%nat) /\
  (forall attributes rest,
     readAttributes total 0 [] table = Ok (attributes, rest) ->
     length attributes = total /\
     rest = drop (2 * solid + 10 * (total - solid)) table /\
     length table = (2 * solid + 10 * (total - solid) + length rest)%nat /\
     (forall i lsb msb,
        (i < solid)%nat ->
        table !! (2 * i)%nat = Some lsb ->
        table !! (2 * i + 1)%nat = Some msb ->
        attributes !! i = Some (u16le lsb msb)) /\
     (forall i lsb msb,
        (solid <= i < total)%nat ->
        table !! (2 * solid + 10 * (i - solid))%nat = Some lsb ->
        table !! (2 * solid + 10 * (i - solid) + 1)%nat = Some msb ->
        attributes !! i = Some (u16le lsb msb))).
Proof.
  intros Hcount solid total table.
  assert (forall i, (i <= total)%nat ->
            attributeBytes i 0 =
            (2 * Nat.min i solid + 10 * (i - solid))%nat) as Hoffset.
  { intros i Hi. apply Nat2Z.inj. rewrite attributeBytes_closed.
    subst solid total. lia. }
  assert (attributeBytes total 0 = (2 * solid + 10 * (total - solid))%nat)
    as Hneed.
  { rewrite Hoffset by lia. subst solid total. lia. }
  destruct (le_lt_dec (attributeBytes total 0) (length table))
    as [Hfits | Hshort].
  - destruct (readAttributes_returns total 0 [] table Hfits)
      as (new & Hread & Hsize & Hentry).
    rewrite Hread, <- Hneed. cbn [app].
    split; [simpl; tauto |].
    intros attributes rest [= <- <-].
    split; [exact Hsize |]. split; [reflexivity |].
    split; [rewrite length_drop; lia |].
    split.
    + intros i lsb msb Hi Hlsb Hmsb.
      apply Hentry; [lia | |]; rewrite Hoffset by lia;
        replace (2 * Nat.min i solid + 10 * (i - solid))%nat
          with (2 * i)%nat by lia; assumption.
    + intros i lsb msb Hi Hlsb Hmsb.
      apply Hentry; [lia | |]; rewrite Hoffset by lia;
        replace (2 * Nat.min i solid + 10 * (i - solid))%nat
          with (2 * solid + 10 * (i - solid))%nat by lia; assumption.
  - rewrite (readAttributes_short total 0 [] table Hshort).
    split; [simpl; split; [tauto | lia] |].
    intros attributes rest [=].
Qed.

End Attributes.

(** ** Matching asset names *)

Lemma string_app_cons (c : ascii) (s t : string) :
  String c s +:+ t = String c (s +:+ t).
Proof. reflexivity. Qed.

Lemma string_app_empty_l (s : string) : "" +:+ s = s.
Proof. reflexivity. Qed.

Lemma string_app_assoc (s t u : string) : (s +:+ t) +:+ u = s +:+ (t +:+ u).
Proof. induction s as [| c s IH];
    rewrite ?string_app_cons, ?string_app_empty_l; cbn; congruence. Qed.

Lemma string_app_empty_r (s : string) : s +:+ "" = s.
Proof. induction s as [| c s IH];
    rewrite ?string_app_cons, ?string_app_empty_l; cbn; congruence. Qed.

Lemma string_length_app (s t : string) :
  String.length (s +:+ t) = (String.length s + String.length t)%nat.
Proof. induction s as [| c s IH];
    rewrite ?string_app_cons, ?string_app_empty_l; cbn; congruence. Qed.

Lemma substring_0_0 (s : string) : substring 0 0 s = "".
Proof. by destruct s. Qed.

Lemma substring_app_prefix (s t : string) :
  substring 0 (String.length (s +:+ t) - String.length t) (s +:+ t) = s.
Proof.
  rewrite string_length_app.
  replace (String.length s + String.length t - String.length t)%nat
    with (String.length s) by lia.
  induction s as [| c s IH];
    rewrite ?string_app_cons, ?string_app_empty_l; cbn;
    [apply substring_0_0 | congruence].
Qed.

Lemma lower_string_app (s t : string) :
  lower_string (s +:+ t) = lower_string s +:+ lower_string t.
Proof.
  induction s as [| c s IH]; [reflexivity |].
  rewrite string_app_cons. cbn [lower_string].
  rewrite string_app_cons. congruence.
Qed.

Lemma eq_nocase_empty (s : string) : eq_nocase s "" -> s = "".
Proof. unfold eq_nocase. by destruct s. Qed.

(** Literal text matches, case aside, a prefix of the subject. *)
Lemma lit_run_spec (text s rest : string) :
  lit_run true text s = Some rest <->
  exists prefix, s = prefix +:+ rest /\ eq_nocase prefix text.
Proof.
  revert s. induction text as [| c text IH]; intros s; cbn [lit_run].
  - split.
    + intros [= ->]. exists "". done.
    + intros (prefix & -> & Hcase). by rewrite (eq_nocase_empty _ Hcase).
  - destruct s as [| d s].
    + split; [discriminate |].
      intros (prefix & Hs & Hcase). destruct prefix; discriminate.
    + unfold chr_eq. destruct (Ascii.eqb_spec (to_lower c) (to_lower d))
        as [Hcd | Hcd].
      * rewrite IH. split.
        -- intros (prefix & -> & Hcase). exists (String d prefix).
           split; [done |]. unfold eq_nocase in *. cbn [lower_string].
           congruence.
        -- intros (prefix & Hs & Hcase). destruct prefix as [| d' prefix].
           { discriminate. }
           injection Hs as -> ->. exists prefix. split; [done |].
           unfold eq_nocase in *. cbn [lower_string] in Hcase. congruence.
      * split; [discriminate |].
        intros (prefix & Hs & Hcase). destruct prefix as [| d' prefix].
        { discriminate. }
        injection Hs as -> ->. unfold eq_nocase in Hcase.
        cbn [lower_string] in Hcase. congruence.
Qed.

Lemma plus_run_spec (ranges : list (ascii * ascii)) (s rest : string) :
  rest ∈ plus_run true ranges s <->
  exists d, d <> "" /\ s = d +:+ rest /\ all_in_bracket ranges d = true.
Proof.
  revert rest. induction s as [| c s IH]; intros rest; cbn [plus_run].
  - split; [intros Hin; by apply elem_of_nil in Hin |].
    intros (d & Hd & Hs & _). destruct d; [done | discriminate].
  - destruct (in_bracket true ranges c) eqn:Hc.
    + rewrite elem_of_app, list_elem_of_singleton, IH. split.
      * intros [(d & Hd & -> & Hall) | ->].
        -- exists (String c d). split; [done |]. split; [done |].
           cbn [all_in_bracket]. by rewrite Hc, Hall.
        -- exists (String c ""). split; [done |]. split; [done |].
           cbn [all_in_bracket]. by rewrite Hc.
      * intros (d & Hd & Hs & Hall). destruct d as [| c' d]; [done |].
        rewrite string_app_cons in Hs. injection Hs as <- ->.
        cbn [all_in_bracket] in Hall. apply andb_true_iff in Hall as [_ Hall].
        destruct d as [| c'' d]; [by right |].
        left. exists (String c'' d). done.
    + split; [intros Hin; by apply elem_of_nil in Hin |].
      intros (d & Hd & Hs & Hall). destruct d as [| c' d]; [done |].
      rewrite string_app_cons in Hs. injection Hs as <- ->.
      cbn [all_in_bracket] in Hall. rewrite Hc in Hall. discriminate.
Qed.

Ltac step_run :=
  cbn -[lit_run in_bracket plus_run String.length substring] in *;
  rewrite ?app_nil_r in *.

Ltac no_match H := exfalso; by apply elem_of_nil in H.

Lemma tileset_full_match (name : string) (m : list string * string) :
  m ∈ run true tilesetNameRegex 0 name /\ m.2 = "" <->
  exists prefix c extension,
    name = prefix +:+ String c extension /\
    eq_nocase prefix "CZONE" /\
    in_bracket true [("0", "9"); ("A", "Z")]%char c = true /\
    eq_nocase extension ".MNI" /\
    m = ([String c ""], "").
Proof.
  unfold tilesetNameRegex. split.
  - intros [Hin Hrest]. step_run.
    destruct (lit_run true "CZONE" name) as [s1 |] eqn:Hpre;
      [| no_match Hin].
    apply lit_run_spec in Hpre as (prefix & -> & Hprefix). step_run.
    destruct s1 as [| c s2]; [no_match Hin |].
    destruct (in_bracket true _ c) eqn:Hc; [| no_match Hin]. step_run.
    destruct (lit_run true ".MNI" s2) as [s3 |] eqn:Hsuf; [| no_match Hin].
    apply lit_run_spec in Hsuf as (extension & -> & Hextension). step_run.
    destruct s3 as [| ? ?]; [| no_match Hin].
    apply list_elem_of_singleton in Hin.
    exists prefix, c, extension. rewrite string_app_empty_r in *.
    repeat (split; [done |]).
    rewrite Hin. do 2 f_equal.
    cbn [String.length].
    replace (S (String.length extension) - String.length extension)%nat
      with 1%nat by lia.
    cbn. by rewrite substring_0_0.
  - intros (prefix & c & extension & -> & Hprefix & Hc & Hextension & ->).
    split; [| done]. step_run.
    assert (lit_run true "CZONE" (prefix +:+ String c extension) =
            Some (String c extension)) as -> by (apply lit_run_spec; eauto).
    step_run. rewrite Hc. step_run.
    assert (lit_run true ".MNI" extension = Some "") as ->.
    { apply lit_run_spec. exists extension.
      by rewrite string_app_empty_r. }
    step_run. cbn [String.length].
    replace (S (String.length extension) - String.length extension)%nat
      with 1%nat by lia.
    cbn. rewrite substring_0_0. apply list_elem_of_singleton. done.
Qed.

Lemma backdrop_full_match (name : string) (m : list string * string) :
  m ∈ run true backdropNameRegex 0 name /\ m.2 = "" <->
  exists prefix d extension,
    name = prefix +:+ d +:+ extension /\
    eq_nocase prefix "DROP" /\
    d <> "" /\
    all_in_bracket [("0", "9")]%char d = true /\
    eq_nocase extension ".MNI" /\
    m = ([d], "").
Proof.
  unfold backdropNameRegex. split.
  - intros [Hin Hrest]. step_run.
    destruct (lit_run true "DROP" name) as [s1 |] eqn:Hpre; [| no_match Hin].
    apply lit_run_spec in Hpre as (prefix & -> & Hprefix). step_run.
    apply list_elem_of_fmap in Hin as (m1 & -> & Hin).
    apply list_elem_of_fmap in Hin as (m1' & -> & Hin).
    apply list_elem_of_bind in Hin as (m2 & Hin & Hgroup).
    apply list_elem_of_fmap in Hgroup as (m3 & -> & Hgroup).
    apply list_elem_of_fmap in Hgroup as (s2 & -> & Hplus).
    apply plus_run_spec in Hplus as (d & Hd & -> & Hall). step_run.
    apply list_elem_of_fmap in Hin as (m4 & -> & Hin).
    destruct (lit_run true ".MNI" s2) as [s3 |] eqn:Hsuf; [| no_match Hin].
    apply lit_run_spec in Hsuf as (extension & -> & Hextension). step_run.
    destruct s3 as [| ? ?]; [| no_match Hin].
    apply list_elem_of_singleton in Hin. subst m4. step_run.
    exists prefix, d, extension. rewrite string_app_empty_r in *.
    repeat (split; [done |]).
    by rewrite substring_app_prefix.
  - intros (prefix & d & extension & -> & Hprefix & Hd & Hall & Hextension
            & ->).
    split; [| done]. step_run.
    assert (lit_run true "DROP" (prefix +:+ d +:+ extension) =
            Some (d +:+ extension)) as -> by (apply lit_run_spec; eauto).
    step_run.
    apply list_elem_of_fmap. exists ([d], "").
    split; [done |].
    apply list_elem_of_fmap. exists ([d], "").
    split; [done |].
    apply list_elem_of_bind. exists ([d], extension). split.
    + step_run.
      assert (lit_run true ".MNI" extension = Some "") as ->.
      { apply lit_run_spec. exists extension.
        by rewrite string_app_empty_r. }
      step_run. apply list_elem_of_singleton. done.
    + apply list_elem_of_fmap. exists ([], extension).
      split; [cbn [fst snd]; by rewrite substring_app_prefix |].
      apply list_elem_of_fmap. exists extension. split; [done |].
      apply plus_run_spec. eauto.
Qed.

Lemma regex_match_inv (icase : bool) (re : regex) (s : string)
    (matches : list string) :
  regex_match icase re s = Some matches ->
  exists m, m ∈ run icase re 0 s /\ m.2 = "" /\ matches = s :: m.1.
Proof.
  unfold regex_match. intros Hmatch.
  destruct (List.find _ _) as [m |] eqn:Hfind; [| discriminate].
  apply List.find_some in Hfind as [Hin Hfull].
  apply bool_decide_eq_true in Hfull. apply list_elem_of_In in Hin.
  exists m. simpl in Hmatch. by injection Hmatch as <-.
Qed.

Lemma regex_match_full (icase : bool) (re : regex) (s : string)
    (m : list string * string) :
  m ∈ run icase re 0 s -> m.2 = "" ->
  exists m', m' ∈ run icase re 0 s /\ m'.2 = "" /\
             regex_match icase re s = Some (s :: m'.1).
Proof.
  intros Hin Hfull. unfold regex_match.
  destruct (List.find _ _) as [m' |] eqn:Hfind.
  - apply List.find_some in Hfind as [Hin' Hfull'].
    apply bool_decide_eq_true in Hfull'. apply list_elem_of_In in Hin'.
    by exists m'.
  - apply list_elem_of_In in Hin.
    pose proof (List.find_none _ _ Hfind m Hin) as Hnot.
    apply bool_decide_eq_false in Hnot. contradiction.
Qed.

Lemma lower_string_length (s : string) :
  String.length (lower_string s) = String.length s.
Proof. induction s as [| c s IH]; simpl; congruence. Qed.

Lemma eq_nocase_length (s t : string) :
  eq_nocase s t -> String.length s = String.length t.
Proof.
  unfold eq_nocase. intros Hcase.
  rewrite <- (lower_string_length s), Hcase. apply lower_string_length.
Qed.

Lemma string_app_inj_length (p p' x x' : string) :
  String.length p = String.length p' ->
  p +:+ x = p' +:+ x' -> p = p' /\ x = x'.
Proof.
  revert p'. induction p as [| c p IH]; intros [| c' p'] Hlen Happ;
    try discriminate.
  - done.
  - rewrite !string_app_cons in Happ. injection Happ as -> Happ.
    injection Hlen as Hlen. destruct (IH p' Hlen Happ) as [-> ->]. done.
Qed.

Lemma in_bracket_alnum (c : ascii) :
  in_bracket true [("0", "9"); ("A", "Z")]%char c = is_alnum c.
Proof. by destruct c as [[] [] [] [] [] [] [] []]. Qed.

Lemma in_bracket_digit (c : ascii) :
  in_bracket true [("0", "9")]%char c = is_digit c.
Proof. by destruct c as [[] [] [] [] [] [] [] []]. Qed.

Lemma all_in_bracket_digits (s : string) :
  all_in_bracket [("0", "9")]%char s = all_digits s.
Proof.
  induction s as [| c s IH]; [reflexivity |].
  cbn [all_in_bracket all_digits]. by rewrite in_bracket_digit, IH.
Qed.

(** The tile set names that have a replacement, and its name. *)
Lemma tilesetReplacementName_spec (name replacement : string) :
  tilesetReplacementName name = Some replacement <->
  exists n, is_tileset_name name n /\
            replacement = "tileset" +:+ n +:+ ".png".
Proof.
  unfold tilesetReplacementName, replacementName, is_tileset_name. split.
  - intros Hname.
    destruct (regex_match true tilesetNameRegex name) as [matches |] eqn:Hm;
      [| discriminate].
    apply regex_match_inv in Hm as (m & Hin & Hfull & ->).
    destruct (proj1 (tileset_full_match name m) (conj Hin Hfull))
      as (prefix & c & extension & -> & Hprefix & Hc & Hextension & ->).
    cbn in Hname. injection Hname as <-.
    exists (String c ""). split; [| done].
    exists prefix, c, extension. by rewrite <- in_bracket_alnum.
  - intros (n & (prefix & c & extension & -> & Hprefix & Hc & Hextension & ->)
            & ->).
    rewrite <- in_bracket_alnum in Hc.
    destruct (regex_match_full true tilesetNameRegex
                (prefix +:+ String c extension) ([String c ""], ""))
      as (m' & Hin' & Hfull' & ->); [| done |].
    { apply tileset_full_match. exists prefix, c, extension. done. }
    destruct (proj1 (tileset_full_match _ m') (conj Hin' Hfull'))
      as (prefix' & c' & extension' & Hname & Hprefix' & _ & _ & ->).
    apply string_app_inj_length in Hname as [_ [= <- _]].
    + reflexivity.
    + rewrite (eq_nocase_length _ _ Hprefix).
      by rewrite (eq_nocase_length _ _ Hprefix').
Qed.

Lemma string_app_inj_length_r (p p' x x' : string) :
  String.length x = String.length x' ->
  p +:+ x = p' +:+ x' -> p = p' /\ x = x'.
Proof.
  intros Hlen Happ. apply string_app_inj_length; [| done].
  pose proof (f_equal String.length Happ) as Htotal.
  rewrite !string_length_app in Htotal. lia.
Qed.

(** The backdrop names that have a replacement, and its name. *)
Lemma backdropReplacementName_spec (name replacement : string) :
  backdropReplacementName name = Some replacement <->
  exists n, is_backdrop_name name n /\
            replacement = "backdrop" +:+ n +:+ ".png".
Proof.
  unfold backdropReplacementName, replacementName, is_backdrop_name. split.
  - intros Hname.
    destruct (regex_match true backdropNameRegex name) as [matches |] eqn:Hm;
      [| discriminate].
    apply regex_match_inv in Hm as (m & Hin & Hfull & ->).
    destruct (proj1 (backdrop_full_match name m) (conj Hin Hfull))
      as (prefix & d & extension & -> & Hprefix & Hd & Hall & Hextension
          & ->).
    cbn in Hname. injection Hname as <-.
    exists d. split; [| done].
    exists prefix, extension. by rewrite <- all_in_bracket_digits.
  - intros (n & (prefix & extension & -> & Hprefix & Hn & Hall & Hextension)
            & ->).
    rewrite <- all_in_bracket_digits in Hall.
    destruct (regex_match_full true backdropNameRegex
                (prefix +:+ n +:+ extension) ([n], ""))
      as (m' & Hin' & Hfull' & ->); [| done |].
    { apply backdrop_full_match. exists prefix, n, extension. done. }
    destruct (proj1 (backdrop_full_match _ m') (conj Hin' Hfull'))
      as (prefix' & d' & extension' & Hname & Hprefix' & _ & _ & Hextension'
          & ->).
    apply string_app_inj_length in Hname as [_ Hname].
    + apply string_app_inj_length_r in Hname as [<- _]; [reflexivity |].
      rewrite (eq_nocase_length _ _ Hextension).
      by rewrite (eq_nocase_length _ _ Hextension').
    + rewrite (eq_nocase_length _ _ Hprefix).
      by rewrite (eq_nocase_length _ _ Hprefix').
Qed.

(** C9.  The replacement candidate follows the naming convention: a name
    that is CZONE, one alphanumeric character and .MNI, in either case, has
    the candidate tileset<N>.png; a name that is DROP, digits and .MNI has
    the candidate backdrop<N>.png, [N] being the part between prefix and
    extension; other names have no candidate. *)
Theorem replacement_naming_convention (name : string) :
  (forall replacement,
     tilesetReplacementName name = Some replacement <->
     exists n, is_tileset_name name n /\
               replacement = "tileset" +:+ n +:+ ".png") /\
  (forall replacement,
     backdropReplacementName name = Some replacement <->
     exists n, is_backdrop_name name n /\
               replacement = "backdrop" +:+ n +:+ ".png") /\
  ((forall n, ~ is_tileset_name name n) ->
   tilesetReplacementName name = None) /\
  ((forall n, ~ is_backdrop_name name n) ->
   backdropReplacementName name = None).
Proof.
  split; [intros; apply tilesetReplacementName_spec |].
  split; [intros; apply backdropReplacementName_spec |].
  split.
  - intros Hnone.
    destruct (tilesetReplacementName name) as [replacement |] eqn:Hname;
      [| reflexivity].
    apply tilesetReplacementName_spec in Hname as (n & Hn & _).
    by destruct (Hnone n).
  - intros Hnone.
    destruct (backdropReplacementName name) as [replacement |] eqn:Hname;
      [| reflexivity].
    apply backdropReplacementName_spec in Hname as (n & Hn & _).
    by destruct (Hnone n).
Qed.

(** ** Paths of replacement files *)

Lemma ends_with_separator_app (p q : string) :
  q <> "" -> ends_with_separator (p +:+ q) = ends_with_separator q.
Proof.
  intros Hq. induction p as [| c p IH]; [reflexivity |].
  rewrite string_app_cons. cbn [ends_with_separator].
  destruct (p +:+ q) eqn:Happ; [| exact IH].
  destruct p; [| discriminate]. rewrite string_app_empty_l in Happ. done.
Qed.

(** Below the game directory, the replacement of an asset is the file
    [asset_replacements/<replacement>]. *)
Lemma replacementPath_unfold (gamePath replacement : string) :
  is_absolute replacement = false ->
  replacementPath gamePath replacement =
  with_separator gamePath +:+ ("asset_replacements/" +:+ replacement).
Proof.
  intros Hrel. unfold replacementPath, path_append, ASSET_REPLACEMENTS_PATH.
  rewrite Hrel. cbn [is_absolute Ascii.eqb Bool.eqb].
  unfold with_separator at 1.
  rewrite ends_with_separator_app by done.
  change (ends_with_separator "asset_replacements") with false. cbv iota.
  rewrite !string_app_assoc. reflexivity.
Qed.

Lemma unpacked_path_ne_replacementPath
    (gamePath name replacement : string) (c : ascii) (rest : string) :
  name = String c rest -> c <> "/"%char -> c <> "a"%char ->
  is_absolute replacement = false ->
  gamePath </> name <> replacementPath gamePath replacement.
Proof.
  intros -> Hslash Ha Hrel. rewrite replacementPath_unfold by done.
  unfold path_append. cbn [is_absolute].
  rewrite (proj2 (Ascii.eqb_neq _ _) Hslash).
  intros Heq. apply (inj (String.append _)) in Heq.
  injection Heq as Hc _. done.
Qed.

Lemma eq_nocase_first (s : string) (c : ascii) (text : string) :
  eq_nocase s (String c text) ->
  exists c' s', s = String c' s' /\ to_lower c' = to_lower c.
Proof.
  unfold eq_nocase. destruct s as [| c' s']; [discriminate |].
  cbn [lower_string]. intros [= Hc _]. eauto.
Qed.

Lemma tileset_name_path (gamePath name replacement : string) :
  tilesetReplacementName name = Some replacement ->
  gamePath </> name <> replacementPath gamePath replacement.
Proof.
  intros Hname.
  apply tilesetReplacementName_spec in Hname
    as (n & (prefix & c & extension & -> & Hprefix & _) & ->).
  apply eq_nocase_first in Hprefix as (c' & prefix' & -> & Hc').
  eapply unpacked_path_ne_replacementPath;
    [by rewrite string_app_cons | | | reflexivity];
    intros ->; discriminate.
Qed.

Lemma backdrop_name_path (gamePath name replacement : string) :
  backdropReplacementName name = Some replacement ->
  gamePath </> name <> replacementPath gamePath replacement.
Proof.
  intros Hname.
  apply backdropReplacementName_spec in Hname
    as (n & (prefix & extension & -> & Hprefix & _) & ->).
  apply eq_nocase_first in Hprefix as (c' & prefix' & -> & Hc').
  eapply unpacked_path_ne_replacementPath;
    [by rewrite string_app_cons | | | reflexivity];
    intros ->; discriminate.
Qed.

(** ** Replacement images *)

Section Replacements.
Context `{GameTraits} `{Collaborators}.
Variables (fs : FileSystem) (self : ResourceLoader).

Lemma file_delete_other (path name : string) :
  mGamePath self </> name <> path ->
  file (delete path fs) self name = file fs self name.
Proof.
  intros Hpath. unfold file, fs_exists, loadFile.
  by rewrite lookup_delete_ne.
Qed.

Lemma loadPng_malformed (path : string) (bytes : ByteBuffer) :
  fs !! path = Some bytes -> decodePng bytes = None -> loadPng fs path = None.
Proof. intros Hfile Hdecode. unfold loadPng. by rewrite Hfile. Qed.

Lemma loadPng_absent (path : string) : loadPng (delete path fs) path = None.
Proof. unfold loadPng. by rewrite lookup_delete_eq. Qed.

(** [loadCZone] when no replacement image is loaded. *)
Lemma loadCZone_original (name : string) :
  loadReplacementTilesetIfPresent fs (mGamePath self) name = None ->
  loadCZone fs self name =
    (data ← file fs self name;
     attributes ← readAttributes (Z.to_nat numTilesTotal) 0 []
                     (take (Z.to_nat attributeBytesTotal) data);
     fullImage ← loadCZone_pixels data;
     Ok (mkTileSet fullImage attributes.1)).
Proof. intros Hnone. unfold loadCZone. by rewrite Hnone. Qed.

(** [loadCZone] when a replacement image is loaded. *)
Lemma loadCZone_replaced (name : string) (replacementImage : Image) :
  loadReplacementTilesetIfPresent fs (mGamePath self) name =
    Some replacementImage ->
  loadCZone fs self name =
    (data ← file fs self name;
     attributes ← readAttributes (Z.to_nat numTilesTotal) 0 []
                     (take (Z.to_nat attributeBytesTotal) data);
     Ok (mkTileSet replacementImage attributes.1)).
Proof. intros Hsome. unfold loadCZone. by rewrite Hsome. Qed.

(** C8.  A replacement candidate that is there but is not an image counts
    as absent: the backdrop, or the tile set, is loaded as from the file
    system without the candidate, from the bytes [file] resolves, and the
    failed decoding raises no error of its own. *)
Theorem malformed_replacement_is_absent
    (name replacement : string) (bytes : ByteBuffer) :
  fs !! replacementPath (mGamePath self) replacement = Some bytes ->
  decodePng bytes = None ->
  (backdropReplacementName name = Some replacement ->
   loadBackdrop fs self name =
     loadBackdrop (delete (replacementPath (mGamePath self) replacement) fs)
       self name /\
   loadBackdrop fs self name = loadTiledFullscreenImage fs self name) /\
  (tilesetReplacementName name = Some replacement ->
   loadCZone fs self name =
     loadCZone (delete (replacementPath (mGamePath self) replacement) fs)
       self name /\
   loadCZone fs self name =
     (data ← file fs self name;
      attributes ← readAttributes (Z.to_nat numTilesTotal) 0 []
                      (take (Z.to_nat attributeBytesTotal) data);
      fullImage ← loadCZone_pixels data;
      Ok (mkTileSet fullImage attributes.1))).
Proof.
  intros Hfile Hdecode.
  pose proof (loadPng_malformed _ _ Hfile Hdecode) as Hpng.
  split; intros Hname.
  - pose proof (backdrop_name_path (mGamePath self) _ _ Hname) as Hpath.
    unfold loadBackdrop, loadTiledFullscreenImage,
      loadTiledFullscreenImage_with.
    rewrite Hname. cbn [mbind option_bind].
    rewrite Hpng, loadPng_absent, file_delete_other by done. done.
  - pose proof (tileset_name_path (mGamePath self) _ _ Hname) as Hpath.
    unfold loadCZone, loadReplacementTilesetIfPresent.
    rewrite Hname. cbn [mbind option_bind].
    rewrite Hpng, loadPng_absent, file_delete_other by done. done.
Qed.

(** C4.  When a replacement image is used for the pixels of a tile set, the
    attributes are still decoded from the bytes [file] resolves for the
    name, and they are the attributes of the tile set loaded without a
    replacement image; taking the replacement file away is one way to be
    without it. *)
Theorem replacement_keeps_attributes
    (name : string) (replacementImage : Image) :
  loadReplacementTilesetIfPresent fs (mGamePath self) name =
    Some replacementImage ->
  loadCZone fs self name =
    (data ← file fs self name;
     attributes ← readAttributes (Z.to_nat numTilesTotal) 0 []
                     (take (Z.to_nat attributeBytesTotal) data);
     Ok (mkTileSet replacementImage attributes.1)) /\
  (forall fs' tileSet tileSet',
     file fs' self name = file fs self name ->
     loadReplacementTilesetIfPresent fs' (mGamePath self) name = None ->
     loadCZone fs self name = Ok tileSet ->
     loadCZone fs' self name = Ok tileSet' ->
     image tileSet = replacementImage /\
     attributes tileSet = attributes tileSet') /\
  (forall replacement,
     tilesetReplacementName name = Some replacement ->
     let fs' := delete (replacementPath (mGamePath self) replacement) fs in
     file fs' self name = file fs self name /\
     loadReplacementTilesetIfPresent fs' (mGamePath self) name = None).
Proof.
  intros Hsome. split; [by apply loadCZone_replaced |]. split.
  - intros fs' tileSet tileSet' Hsame Hnone Hload Hload'.
    rewrite (loadCZone_replaced _ _ Hsome) in Hload.
    unfold loadCZone in Hload'. rewrite Hnone, Hsame in Hload'.
    destruct (file fs self name) as [data |]; [| discriminate].
    cbn [mbind Result_bind] in *.
    destruct (readAttributes _ _ _ _) as [attributes |]; [| discriminate].
    cbn [mbind Result_bind] in *.
    destruct (loadCZone_pixels data) as [fullImage |]; [| discriminate].
    cbn [mbind Result_bind] in *.
    injection Hload as <-. injection Hload' as <-. done.
  - intros replacement Hname fs'. subst fs'. split.
    + apply file_delete_other. by apply tileset_name_path.
    + unfold loadReplacementTilesetIfPresent. rewrite Hname.
      cbn [mbind option_bind]. apply loadPng_absent.
Qed.

(** C1, as the code has it.  With an unpacked file at the exact path of a
    tile set and a replacement image for it, the attributes are decoded
    from the unpacked file's bytes and the image is the replacement
    image. *)
Theorem replacement_image_over_exact_override
    (name : string) (override : ByteBuffer) (replacementImage : Image) :
  fs !! (mGamePath self </> name) = Some override ->
  loadReplacementTilesetIfPresent fs (mGamePath self) name =
    Some replacementImage ->
  loadCZone fs self name =
    (attributes ← readAttributes (Z.to_nat numTilesTotal) 0 []
                     (take (Z.to_nat attributeBytesTotal) override);
     Ok (mkTileSet replacementImage attributes.1)).
Proof.
  intros Hfile Hsome.
  rewrite (loadCZone_replaced _ _ Hsome), (file_unpacked _ _ _ _ Hfile).
  reflexivity.
Qed.

End Replacements.

(** ** The statements on the concrete settings *)

(** C1, as the design document has it, fails: CZONE3.MNI is unpacked in the
    game directory and tileset3.png is among the replacements; the image of
    the loaded tile set is the replacement image, one pixel wide, not the
    320 pixels wide image decoded from the unpacked file. *)
Lemma exact_override_does_not_win :
  ~ @exact_override_wins dukeNukem2Traits sampleCollaborators
      sampleFs sampleLoader "CZONE3.MNI".
Proof.
  intros Hclaim.
  specialize (Hclaim sampleOverride (mkImage [grey xff] 1 1)
                eq_refl eq_refl).
  apply (f_equal loaded_width) in Hclaim.
  vm_compute in Hclaim. discriminate.
Qed.

(** With both files there, the attributes come from the unpacked file and
    the image from tileset3.png. *)
Lemma replacement_image_over_exact_override_witness :
  @loadCZone dukeNukem2Traits sampleCollaborators
    sampleFs sampleLoader "CZONE3.MNI" =
  Ok (mkTileSet (mkImage [grey xff] 1 1) (replicate 1160 257)).
Proof.
  rewrite (@replacement_image_over_exact_override
             dukeNukem2Traits sampleCollaborators sampleFs sampleLoader
             "CZONE3.MNI" sampleOverride (mkImage [grey xff] 1 1)
             eq_refl eq_refl).
  vm_compute. reflexivity.
Defined.

(** The intro sound is decoded from INTRO3.MNI although SB_35.MNI, the
    digitized file of its ordinal, is there as well. *)
Lemma loadSound_resolution_order_witness :
  hasFile sampleFs sampleLoader
    (@digitizedSoundFileName sampleCollaborators IntroGunShot) = true /\
  @loadSound sampleCollaborators sampleFs sampleLoader IntroGunShot =
    Ok (mkAudioBuffer 11025 [1; 2]).
Proof.
  split; [vm_compute; reflexivity |].
  destruct (@loadSound_resolution_order sampleCollaborators
              sampleFs sampleLoader IntroGunShot)
    as (_ & _ & _ & Hintro & _).
  rewrite (Hintro "INTRO3.MNI" eq_refl). vm_compute. reflexivity.
Defined.

(** CZONE3.MNI is unpacked and in the archive: [file] returns the unpacked
    bytes. *)
Lemma file_resolution_witness :
  is_Some (package_entry samplePackage "CZONE3.MNI") /\
  @file sampleCollaborators sampleFs sampleLoader "CZONE3.MNI" =
    Ok sampleOverride.
Proof.
  split; [eexists; reflexivity |].
  apply (proj1 (@file_resolution sampleCollaborators sampleFs sampleLoader
                  "CZONE3.MNI")).
  reflexivity.
Defined.

Lemma replacement_keeps_attributes_witness :
  @loadCZone dukeNukem2Traits sampleCollaborators
    sampleFs sampleLoader "CZONE3.MNI" =
  (data ← @file sampleCollaborators sampleFs sampleLoader "CZONE3.MNI";
   attributes ← @readAttributes dukeNukem2Traits 1160 0 [] (take 3600 data);
   Ok (mkTileSet (mkImage [grey xff] 1 1) attributes.1)).
Proof.
  apply (proj1 (@replacement_keeps_attributes
                  dukeNukem2Traits sampleCollaborators sampleFs sampleLoader
                  "CZONE3.MNI" (mkImage [grey xff] 1 1) eq_refl)).
Defined.

Lemma attribute_table_layout_witness :
  0 <= 1000 <= 1160 /\
  is_Ok (@readAttributes dukeNukem2Traits 1160 0 [] (take 3600 sampleOverride)).
Proof.
  split; [lia |].
  apply (proj1 (@attribute_table_layout dukeNukem2Traits sampleOverride
                  ltac:(simpl; lia))).
  vm_compute. lia.
Defined.

Lemma palette_scaling_and_consumption_witness :
  scale6to8 0 = 0 /\ scale6to8 21 = 85 /\ scale6to8 63 = 255 /\
  scale6to8 21 <= scale6to8 42.
Proof.
  destruct palette_scaling_and_consumption as (Hnearest & Hmono & _).
  repeat split; try reflexivity.
  apply Hmono. lia.
Defined.

Lemma loadAntiPiracyImage_layout_witness :
  exists image,
    @loadAntiPiracyImage dukeNukem2Traits sampleCollaborators
      sampleFs sampleLoader = Ok image /\
    width image = 320 /\ height image = 200 /\
    length (pixels image) = 2%nat.
Proof.
  destruct (@loadAntiPiracyImage_layout dukeNukem2Traits sampleCollaborators
              sampleFs sampleLoader (replicate 768 x3f ++ [x00; x05])
              eq_refl ltac:(simpl; lia))
    as (palette & image & _ & _ & _ & Hload & Hwidth & Hheight & Hsize & _).
  exists image. repeat split; assumption.
Defined.

(** The file where the replacement of backdrop 1 is looked for is no
    image; the backdrop is loaded from DROP1.MNI. *)
Lemma malformed_replacement_is_absent_witness :
  @loadBackdrop dukeNukem2Traits sampleCollaborators
    sampleFs sampleLoader "DROP1.MNI" =
  @loadTiledFullscreenImage dukeNukem2Traits sampleCollaborators
    sampleFs sampleLoader "DROP1.MNI".
Proof.
  apply (proj1 (@malformed_replacement_is_absent
                  dukeNukem2Traits sampleCollaborators sampleFs sampleLoader
                  "DROP1.MNI" "backdrop1.png" [x00] eq_refl eq_refl)).
  reflexivity.
Defined.

Lemma replacement_naming_convention_witness :
  tilesetReplacementName "czoneA.mni" = Some "tilesetA.png" /\
  backdropReplacementName "CZONE3.MNI" = None.
Proof.
  split.
  - apply (proj1 (replacement_naming_convention "czoneA.mni")).
    exists "A". split; [| reflexivity].
    exists "czone", "A"%char, ".mni". repeat split; reflexivity.
  - apply (proj2 (proj2 (proj2 (replacement_naming_convention "CZONE3.MNI")))).
    intros n (prefix & extension & Hname & Hprefix & _).
    apply eq_nocase_first in Hprefix as (c' & prefix' & -> & Hc').
    injection Hname as <- _. discriminate.
Defined.

Lemma setTileAt_tileAt_bounds_witness :
  (exists what,
     (@setTileAt dukeNukem2Traits sampleMap 0 (-1) 0 5).1 =
       Err (InvalidArgument what)) /\
  (exists what, tileAt sampleMap 2 0 0 = Err (InvalidArgument what)) /\
  (@setTileAt dukeNukem2Traits sampleMap 1 3 2 1160).2 = sampleMap.
Proof.
  assert (Map_wf sampleMap) as Hwf by (apply Map_new_wf; lia).
  assert (int_range 0 /\ int_range (-1) /\ int_range 1 /\ int_range 2 /\
          int_range 3) as (H0 & Hm1 & H1 & H2 & H3)
    by (unfold int_range; lia).
  split; [| split].
  - apply (proj1 (@setTileAt_tileAt_bounds dukeNukem2Traits
                    sampleMap 0 (-1) 0 5 Hwf H0 Hm1 H0)).
    right. unfold bad_position. lia.
  - apply (proj1 (proj2 (proj2 (proj2
             (@setTileAt_tileAt_bounds dukeNukem2Traits
                sampleMap 2 0 0 0 Hwf H2 H0 H0))))).
    unfold bad_position. lia.
  - destruct (@setTileAt_tileAt_bounds dukeNukem2Traits
                sampleMap 1 3 2 1160 Hwf H1 H3 H2)
      as (_ & Hok & Hkeep & _).
    apply Hkeep. intros Hset. apply Hok in Hset. apply Hset.
    left. simpl. lia.
Defined.

(** The character between CZONE and .MNI is a single one, and a backdrop
    needs a digit. *)
Example replacement_names :
  tilesetReplacementName "CZONE3.MNI" = Some "tileset3.png" /\
  tilesetReplacementName "CZONE10.MNI" = None /\
  tilesetReplacementName "CZONE_.MNI" = None /\
  backdropReplacementName "drop012.mni" = Some "backdrop012.png" /\
  backdropReplacementName "DROP.MNI" = None /\
  backdropReplacementName "DROP1A.MNI" = None.
Proof. repeat split; reflexivity. Qed.

(** Without the intro table the digitized file would have been found:
    sound 34 has SB_35.MNI, sound 0 is synthesized. *)
Example digitized_and_synthesized_sounds :
  @digitizedSoundFileName sampleCollaborators (OtherSound 0) = "SB_1.MNI" /\
  @loadSound sampleCollaborators sampleFs sampleLoader (OtherSound 0) =
    Ok (mkAudioBuffer 44100 [0]) /\
  @loadSound_name sampleCollaborators sampleFs sampleLoader "SB_35.MNI" =
    Ok (mkAudioBuffer 11025 [7]).
Proof. repeat split; reflexivity. Qed.

(** * Further properties of the code *)

(** ** The tile grid: construction, reads after writes *)

Lemma tileRefAt_writeRef (m : Map) (ref : TileRef) (index : TileIndex)
    (layer x y : Z) :
  tileRefAt (writeRef m ref index) layer x y = tileRefAt m layer x y.
Proof. unfold tileRefAt. simpl. by rewrite length_alter. Qed.

Lemma readRef_writeRef_eq (m : Map) (ref : TileRef) (index : TileIndex) :
  is_Some (readRef m ref) -> readRef (writeRef m ref index) ref = Some index.
Proof.
  unfold readRef. simpl. intros [old Hold].
  rewrite list_lookup_alter_eq.
  destruct (mLayers m !! ref.1) as [row |]; [| discriminate]. simpl in *.
  apply list_lookup_insert_eq. by apply lookup_lt_Some in Hold.
Qed.

Lemma readRef_writeRef_ne (m : Map) (ref ref' : TileRef) (index : TileIndex) :
  ref' <> ref -> readRef (writeRef m ref index) ref' = readRef m ref'.
Proof.
  unfold readRef. simpl. intros Hne.
  destruct (decide (ref'.1 = ref.1)) as [Hlayer | Hlayer].
  - rewrite Hlayer, list_lookup_alter_eq.
    destruct (mLayers m !! ref.1) as [row |]; [| reflexivity]. simpl.
    apply list_lookup_insert_ne. intros Hoffset. apply Hne.
    destruct ref, ref'. simpl in *. congruence.
  - by rewrite list_lookup_alter_ne.
Qed.

(** Inside the grid, different positions have different references. *)
Lemma TileRef_inj (m : Map) (layer x y layer' x' y' : Z) :
  Map_wf m ->
  ~ bad_position m layer x y -> ~ bad_position m layer' x' y' ->
  (Z.to_nat layer, Z.to_nat (x + y * mWidthInTiles m)) =
  (Z.to_nat layer', Z.to_nat (x' + y' * mWidthInTiles m)) ->
  layer = layer' /\ x = x' /\ y = y'.
Proof.
  intros [Hw Hh _ _ _] Hgood Hgood' [= Hlayer Hoffset].
  unfold bad_position in *.
  assert (x + y * mWidthInTiles m = x' + y' * mWidthInTiles m) as Heq by nia.
  assert (y = y') by nia. subst y'.
  repeat split; lia.
Qed.

(** X1.  A map constructed with non-negative dimensions whose product fits
    an [int] is in the constructed state, has these dimensions, and has
    tile 0 at every position of both layers. *)
Theorem Map_new_blank (tileSet : TileSet) (backdrop : Image)
    (secondaryBackdrop : option Image) (w h : Z) :
  0 <= w < 2 ^ 31 -> 0 <= h < 2 ^ 31 -> w * h < 2 ^ 31 ->
  Map_wf (Map_new tileSet backdrop secondaryBackdrop w h) /\
  mWidthInTiles (Map_new tileSet backdrop secondaryBackdrop w h) = w /\
  mHeightInTiles (Map_new tileSet backdrop secondaryBackdrop w h) = h /\
  forall layer x y,
    0 <= layer < 2 -> 0 <= x < w -> 0 <= y < h ->
    tileAt (Map_new tileSet backdrop secondaryBackdrop w h) layer x y = Ok 0.
Proof.
  intros Hw Hh Ha.
  pose proof (Map_new_wf tileSet backdrop secondaryBackdrop w h Hw Hh Ha)
    as Hwf.
  assert (mWidthInTiles (Map_new tileSet backdrop secondaryBackdrop w h) = w)
    as Hwidth by (simpl; by apply to_size_t_nonneg).
  assert (mHeightInTiles (Map_new tileSet backdrop secondaryBackdrop w h) = h)
    as Hheight by (simpl; by apply to_size_t_nonneg).
  split; [exact Hwf |]. split; [exact Hwidth |]. split; [exact Hheight |].
  intros layer x y Hl Hx Hy.
  destruct (tileAt_inside _ layer x y Hwf)
    as (row & stored & Hrow & Hcell & ->).
  - unfold int_range. lia.
  - unfold int_range. lia.
  - unfold int_range. lia.
  - unfold bad_position. rewrite Hwidth, Hheight. lia.
  - f_equal.
    assert (row = replicate (Z.to_nat (w * h)) 0) as ->.
    { simpl in Hrow.
      destruct (Z.to_nat layer) as [| [| n]]; simpl in Hrow;
        [by injection Hrow | by injection Hrow | discriminate]. }
    by apply lookup_replicate in Hcell as [-> _].
Qed.

(** X2.  After a [setTileAt] that returns, [tileAt] gives the new index at
    the position written and what it gave before at every other position,
    the positions it rejects included. *)
Theorem tileAt_after_setTileAt `{GameTraits}
    (m : Map) (layer x y : Z) (index : TileIndex) (layer' x' y' : Z) :
  Map_wf m -> int_range layer -> int_range x -> int_range y ->
  int_range layer' -> int_range x' -> int_range y' ->
  (setTileAt m layer x y index).1 = Ok tt ->
  tileAt (setTileAt m layer x y index).2 layer' x' y' =
    if decide (layer' = layer /\ x' = x /\ y' = y)
    then Ok index
    else tileAt m layer' x' y'.
Proof.
  intros Hwf Hl Hx Hy Hl' Hx' Hy' Hok.
  destruct (setTileAt_outcome m layer x y index Hwf Hl Hx Hy)
    as [[_ [what Hset]] | [Hcond Hset]]; rewrite Hset in *; [discriminate |].
  assert (~ bad_position m layer x y) as Hgood by tauto.
  cbn [snd]. unfold tileAt. rewrite tileRefAt_writeRef.
  destruct (decide _) as [(-> & -> & ->) | Hother].
  - rewrite tileRefAt_returns by assumption. cbn [mbind Result_bind].
    rewrite readRef_writeRef_eq; [done |]. by apply readRef_inside.
  - assert (bad_position m layer' x' y' \/ ~ bad_position m layer' x' y')
      as [Hbad | Hgood'] by (unfold bad_position; lia).
    + by destruct (tileRefAt_throws m layer' x' y' Hwf Hl' Hx' Hy' Hbad)
        as [what ->].
    + rewrite tileRefAt_returns by assumption. cbn [mbind Result_bind].
      rewrite readRef_writeRef_ne; [done |].
      intros Href. apply Hother.
      by apply (TileRef_inj m layer' x' y' layer x y Hwf).
Qed.

(** X3.  [setTileAt] keeps a map in the constructed state and never
    changes its dimensions, its tile set or its backdrops, whatever the
    arguments and whether or not it throws. *)
Theorem setTileAt_keeps `{GameTraits}
    (m : Map) (layer x y : Z) (index : TileIndex) :
  (Map_wf m -> Map_wf (setTileAt m layer x y index).2) /\
  mWidthInTiles (setTileAt m layer x y index).2 = mWidthInTiles m /\
  mHeightInTiles (setTileAt m layer x y index).2 = mHeightInTiles m /\
  length (mLayers (setTileAt m layer x y index).2) = length (mLayers m) /\
  mTileSet (setTileAt m layer x y index).2 = mTileSet m /\
  mBackdropImage (setTileAt m layer x y index).2 = mBackdropImage m /\
  mSecondaryBackdropImage (setTileAt m layer x y index).2 =
    mSecondaryBackdropImage m.
Proof.
  split; [apply setTileAt_wf |].
  unfold setTileAt. repeat case_match; simpl; rewrite ?length_alter; done.
Qed.

Lemma writeRef_writeRef_eq (m : Map) (ref : TileRef) (index1 index2 : TileIndex) :
  writeRef (writeRef m ref index1) ref index2 = writeRef m ref index2.
Proof.
  unfold writeRef. simpl. f_equal.
  apply list_eq. intros k.
  destruct (decide (ref.1 = k)) as [<- | Hk].
  - rewrite !list_lookup_alter_eq.
    destruct (mLayers m !! ref.1) as [row |]; [| done]. simpl.
    by rewrite list_insert_insert_eq.
  - by rewrite !list_lookup_alter_ne.
Qed.

Lemma writeRef_comm (m : Map) (ref ref' : TileRef) (index index' : TileIndex) :
  ref <> ref' ->
  writeRef (writeRef m ref index) ref' index' =
  writeRef (writeRef m ref' index') ref index.
Proof.
  intros Hne. unfold writeRef. simpl. f_equal.
  apply list_eq. intros k.
  destruct (decide (ref.1 = ref'.1)) as [Hl | Hl].
  - rewrite Hl. destruct (decide (ref'.1 = k)) as [<- | Hk].
    + rewrite !list_lookup_alter_eq.
      destruct (mLayers m !! ref'.1) as [row |]; [| done]. simpl. f_equal.
      apply list_insert_insert_ne. intros Hoffset. apply Hne.
      destruct ref, ref'. simpl in *. congruence.
    + by rewrite !list_lookup_alter_ne.
  - destruct (decide (ref.1 = k)) as [<- | Hk].
    + rewrite list_lookup_alter_ne by done.
      rewrite !list_lookup_alter_eq.
      by rewrite list_lookup_alter_ne by done.
    + rewrite (list_lookup_alter_ne _ _ ref.1) by done.
      destruct (decide (ref'.1 = k)) as [<- | Hk'].
      * rewrite !list_lookup_alter_eq.
        by rewrite list_lookup_alter_ne by done.
      * by rewrite !list_lookup_alter_ne.
Qed.

Lemma setTileAt_returns `{GameTraits}
    (m : Map) (layer x y : Z) (index : TileIndex) (ref : TileRef) :
  tileRefAt m layer x y = Ok ref -> index < numTilesTotal ->
  setTileAt m layer x y index = (Ok tt, writeRef m ref index).
Proof.
  intros Href Hindex. unfold setTileAt. rewrite Href.
  destruct (Z.leb_spec numTilesTotal index); [lia | reflexivity].
Qed.

(** X4.  Writes compose as stores do: a second [setTileAt] at the same
    position that returns leaves the map as if the first had not been made,
    and two writes at different positions that both return give the same
    map in either order. *)
Theorem setTileAt_compose `{GameTraits}
    (m : Map) (layer x y : Z) (index : TileIndex)
    (layer' x' y' : Z) (index' : TileIndex) :
  Map_wf m -> int_range layer -> int_range x -> int_range y ->
  int_range layer' -> int_range x' -> int_range y' ->
  (setTileAt m layer x y index).1 = Ok tt ->
  (setTileAt m layer' x' y' index').1 = Ok tt ->
  (setTileAt (setTileAt m layer x y index').2 layer x y index).2 =
    (setTileAt m layer x y index).2 /\
  (~ (layer' = layer /\ x' = x /\ y' = y) ->
   (setTileAt (setTileAt m layer x y index).2 layer' x' y' index').2 =
   (setTileAt (setTileAt m layer' x' y' index').2 layer x y index).2).
Proof.
  intros Hwf Hl Hx Hy Hl' Hx' Hy' Hok Hok'.
  destruct (setTileAt_outcome m layer x y index Hwf Hl Hx Hy)
    as [[_ [what Hset]] | [Hcond Hset]]; rewrite Hset in *; [discriminate |].
  destruct (setTileAt_outcome m layer' x' y' index' Hwf Hl' Hx' Hy')
    as [[_ [what Hset']] | [Hcond' Hset']]; rewrite Hset' in *;
    [discriminate |].
  assert (index < numTilesTotal /\ index' < numTilesTotal) as [Hi Hi']
    by lia.
  pose proof (tileRefAt_returns m layer x y Hwf Hl Hx Hy ltac:(tauto))
    as Href.
  pose proof (tileRefAt_returns m layer' x' y' Hwf Hl' Hx' Hy' ltac:(tauto))
    as Href'.
  rewrite (setTileAt_returns m layer x y index' _ Href Hi').
  cbn [snd].
  rewrite !(setTileAt_returns _ layer x y index
              (Z.to_nat layer, Z.to_nat (x + y * mWidthInTiles m)))
    by (rewrite ?tileRefAt_writeRef; assumption).
  rewrite (setTileAt_returns _ layer' x' y' index'
             (Z.to_nat layer', Z.to_nat (x' + y' * mWidthInTiles m)))
    by (rewrite ?tileRefAt_writeRef; assumption).
  cbn [snd]. split.
  - apply writeRef_writeRef_eq.
  - intros Hother. apply writeRef_comm. intros Heq. apply Hother.
    symmetry in Heq.
    by apply (TileRef_inj m layer' x' y' layer x y Hwf); [tauto | tauto |].
Qed.

(** X5.  The checks are made in a fixed order, which decides the message:
    a tile index that is too large is reported whatever the position is;
    then the layer, then x, then y. *)
Theorem setTileAt_error_precedence `{GameTraits}
    (m : Map) (layer x y : Z) (index : TileIndex) :
  Map_wf m -> int_range layer -> int_range x -> int_range y ->
  (numTilesTotal <= index ->
   setTileAt m layer x y index =
     (Err (InvalidArgument "Tile index too large for tile set"), m)) /\
  (index < numTilesTotal ->
   match tileAt m layer x y with
   | Ok _ => (setTileAt m layer x y index).1 = Ok tt
   | Err e => (setTileAt m layer x y index).1 = Err e
   end) /\
  (layer < 0 \/ 2 <= layer ->
   tileAt m layer x y = Err (InvalidArgument "Layer index out of bounds")) /\
  (0 <= layer < 2 -> x < 0 \/ mWidthInTiles m <= x ->
   tileAt m layer x y = Err (InvalidArgument "X coord out of bounds")) /\
  (0 <= layer < 2 -> 0 <= x < mWidthInTiles m ->
   y < 0 \/ mHeightInTiles m <= y ->
   tileAt m layer x y = Err (InvalidArgument "Y coord out of bounds")).
Proof.
  intros Hwf Hl Hx Hy.
  pose proof (to_size_t_below layer 2 Hl ltac:(lia)) as Bl.
  pose proof (to_size_t_below x _ Hx (wf_width _ Hwf)) as Bx.
  pose proof (to_size_t_below y _ Hy (wf_height _ Hwf)) as By.
  split.
  { intros Hbig. unfold setTileAt.
    destruct (Z.leb_spec numTilesTotal index); [reflexivity | lia]. }
  split.
  { intros Hsmall. unfold setTileAt.
    destruct (Z.leb_spec numTilesTotal index); [lia |].
    assert (bad_position m layer x y \/ ~ bad_position m layer x y)
      as [Hbad | Hgood] by (unfold bad_position; lia).
    - unfold tileAt.
      by destruct (tileRefAt_throws m layer x y Hwf Hl Hx Hy Hbad)
        as [what ->].
    - destruct (tileAt_inside m layer x y Hwf Hl Hx Hy Hgood)
        as (row & stored & _ & _ & ->).
      by rewrite tileRefAt_returns. }
  unfold tileAt, tileRefAt. rewrite (wf_layers _ Hwf).
  change (Z.of_nat 2) with 2.
  repeat split; intros; repeat case_match; try reflexivity;
    rewrite ?Z.leb_gt, ?Z.leb_le in *; lia.
Qed.

(** X6.  A map without tiles, of width or height 0, has no position that
    can be read or written: [tileAt] and [setTileAt] throw for every
    position and the map stays as it is. *)
Theorem empty_map_rejects `{GameTraits}
    (m : Map) (layer x y : Z) (index : TileIndex) :
  Map_wf m -> int_range layer -> int_range x -> int_range y ->
  mWidthInTiles m = 0 \/ mHeightInTiles m = 0 ->
  (exists what, tileAt m layer x y = Err (InvalidArgument what)) /\
  (exists what,
     setTileAt m layer x y index = (Err (InvalidArgument what), m)).
Proof.
  intros Hwf Hl Hx Hy Hempty.
  assert (bad_position m layer x y) as Hbad
    by (unfold bad_position; lia).
  split.
  - unfold tileAt.
    destruct (tileRefAt_throws m layer x y Hwf Hl Hx Hy Hbad) as [what ->].
    eauto.
  - destruct (setTileAt_outcome m layer x y index Hwf Hl Hx Hy)
      as [[_ Hthrows] | [Hcond _]]; [assumption | tauto].
Qed.

(** ** The loader: where the bytes come from *)

Section LoaderSources.
Context `{GameTraits} `{Collaborators} `{EgaTraits} `{MediaDecoders}.
Variables (fs : FileSystem) (self : ResourceLoader).

Lemma file_error (name : string) (e : Error) :
  file fs self name = Err e -> e = NotFoundError.
Proof.
  destruct (fs !! (mGamePath self </> name)) as [bytes |] eqn:Hfile.
  - rewrite (file_unpacked _ _ _ _ Hfile). discriminate.
  - rewrite (file_packed _ _ _ Hfile). unfold package_file.
    destruct (package_entry _ _); [discriminate | congruence].
Qed.



Lemma backdrop_replacement_file (name n : string) :
  is_backdrop_name name n ->
  backdropReplacementName name ≫=
    (fun replacement =>
       loadPng fs (replacementPath (mGamePath self) replacement)) =
  loadPng fs (with_separator (mGamePath self) +:+
              ("asset_replacements/" +:+ ("backdrop" +:+ n +:+ ".png"))).
Proof.
  intros Hname.
  rewrite (proj2 (backdropReplacementName_spec name _))
    by (exists n; split; [exact Hname | reflexivity]).
  cbn [mbind option_bind].
  by rewrite replacementPath_unfold.
Qed.

(** X8.  A backdrop named DROP<N>.MNI is the image of
    asset_replacements/backdrop<N>.png whenever that file is an image, with
    no look at DROP<N>.MNI itself: the load succeeds even where the name
    exists neither unpacked nor in the archive. *)
Theorem loadBackdrop_replacement_first
    (name n : string) (bytes : ByteBuffer) (replacementImage : Image) :
  is_backdrop_name name n ->
  fs !! (with_separator (mGamePath self) +:+
         ("asset_replacements/" +:+ ("backdrop" +:+ n +:+ ".png"))) =
    Some bytes ->
  decodePng bytes = Some replacementImage ->
  loadBackdrop fs self name = Ok replacementImage.
Proof.
  intros Hname Hfile Hdecode. unfold loadBackdrop.
  change (backdropReplacementName name ≫= _)
    with (backdropReplacementName name ≫=
            (fun replacement =>
               loadPng fs (replacementPath (mGamePath self) replacement))).
  rewrite (backdrop_replacement_file _ _ Hname).
  unfold loadPng. rewrite Hfile. cbn [mbind option_bind]. by rewrite Hdecode.
Qed.

End LoaderSources.

(** ** The loader: tile sets *)

Section TileSets.
Context `{GameTraits} `{Collaborators}.

Lemma readAttributes_output (count : nat) :
  forall (index : Z) (attributes : list Z) (stream : ByteBuffer)
         (output : list Z) (rest : ByteBuffer),
  readAttributes count index attributes stream = Ok (output, rest) ->
  exists new,
    output = attributes ++ new /\
    length new = count /\
    Forall (fun attribute => 0 <= attribute < 65536) new.
Proof.
  induction count as [| count IH];
    intros index attributes stream output rest Hread.
  - injection Hread as <- <-. exists []. by rewrite app_nil_r.
  - cbn [readAttributes] in Hread.
    destruct stream as [| lsb [| msb stream]]; try discriminate.
    rewrite readU16_cons in Hread. cbn [mbind Result_bind fst snd] in Hread.
    destruct (if numSolidTiles <=? index then _ else _)
      as [skipped |]; [| discriminate].
    cbn [mbind Result_bind] in Hread.
    apply IH in Hread as (new & -> & Hsize & Hrange).
    exists (u16le lsb msb :: new). rewrite <- app_assoc.
    split; [reflexivity |]. split; [simpl; lia |].
    constructor; [apply u16le_range | assumption].
Qed.

Lemma readAttributes_is_Ok (count : nat) (index : Z) (attributes : list Z)
    (stream : ByteBuffer) :
  is_Ok (readAttributes count index attributes stream) <->
  (attributeBytes count index <= length stream)%nat.
Proof.
  destruct (le_lt_dec (attributeBytes count index) (length stream))
    as [Hfits | Hshort].
  - destruct (readAttributes_returns count index attributes stream Hfits)
      as (new & -> & _). simpl. tauto.
  - rewrite (readAttributes_short count index attributes stream Hshort).
    simpl. split; [tauto | lia].
Qed.

Variables (fs : FileSystem) (self : ResourceLoader).


(** X10.  Every tile set [loadCZone] returns, with or without a
    replacement image, has one attribute for each tile of a tile set, and
    each attribute is a 16-bit value. *)
Theorem loadCZone_attributes (name : string) (tileSet : TileSet) :
  loadCZone fs self name = Ok tileSet ->
  length (attributes tileSet) = Z.to_nat numTilesTotal /\
  Forall (fun attribute => 0 <= attribute < 65536) (attributes tileSet).
Proof.
  unfold loadCZone. intros Hload.
  destruct (file fs self name) as [data |]; [| discriminate].
  cbn [mbind Result_bind] in Hload.
  destruct (readAttributes _ _ _ _) as [[output rest] |] eqn:Hread;
    [| discriminate].
  apply readAttributes_output in Hread as (new & -> & Hsize & Hrange).
  cbn [mbind Result_bind fst app] in Hload.
  destruct (loadReplacementTilesetIfPresent _ _ _).
  - injection Hload as <-. done.
  - destruct (loadCZone_pixels data); [| discriminate].
    injection Hload as <-. done.
Qed.

(** X11.  A name that is not of the form CZONE<N>.MNI, or DROP<N>.MNI for
    backdrops, has no replacement: what is loaded depends on the file
    system through [file(name)] only, whatever asset_replacements holds. *)
Theorem unmatched_names_are_not_replaced (fs' : FileSystem) (name : string) :
  file fs' self name = file fs self name ->
  ((forall n, ~ is_tileset_name name n) ->
   loadCZone fs' self name = loadCZone fs self name) /\
  ((forall n, ~ is_backdrop_name name n) ->
   loadBackdrop fs' self name = loadBackdrop fs self name).
Proof.
  intros Hsame. split; intros Hnone.
  - assert (tilesetReplacementName name = None) as Hname.
    { destruct (tilesetReplacementName name) as [r |] eqn:Hr; [| done].
      apply tilesetReplacementName_spec in Hr as (n & Hn & _).
      by destruct (Hnone n). }
    unfold loadCZone, loadReplacementTilesetIfPresent.
    by rewrite Hname, Hsame.
  - assert (backdropReplacementName name = None) as Hname.
    { destruct (backdropReplacementName name) as [r |] eqn:Hr; [| done].
      apply backdropReplacementName_spec in Hr as (n & Hn & _).
      by destruct (Hnone n). }
    unfold loadBackdrop, loadTiledFullscreenImage,
      loadTiledFullscreenImage_with.
    by rewrite Hname, Hsame.
Qed.

End TileSets.

(** ** The loader: sounds, movies, music and full-screen images *)

Section OtherLoaderProperties.
Context `{GameTraits} `{Collaborators} `{EgaTraits} `{MediaDecoders}.
Variables (fs : FileSystem) (self : ResourceLoader).

(** X12.  For an intro sound there is no fallback: when its INTRO file
    exists neither unpacked nor in the archive, [loadSound] fails with the
    error of [file], whether or not the digitized file of its ordinal
    exists and whatever the AdLib package could synthesize. *)
Theorem loadSound_intro_no_fallback (id : SoundId) (introSoundFilename : string) :
  introSoundFilenameFor id = Some introSoundFilename ->
  hasFile fs self introSoundFilename = false ->
  loadSound fs self id = Err NotFoundError.
Proof.
  intros Hintro Hmissing. unfold loadSound, loadSound_name. rewrite Hintro.
  destruct (file fs self introSoundFilename) as [data | e] eqn:Hfile.
  - assert (hasFile fs self introSoundFilename = true) as Hhas
      by (apply hasFile_file; by rewrite Hfile).
    congruence.
  - by rewrite (file_error _ _ _ _ Hfile).
Qed.

(** X13.  Movies are read from the game directory only.  A name that is
    in the archive but not unpacked is loaded by [loadMusic] and
    [loadScriptBundle] from the archive's entry, while [loadMovie] fails;
    an unpacked file is what all three decode. *)
Theorem loadMovie_not_from_archive (name : string) :
  (fs !! (mGamePath self </> name) = None ->
   ~ is_Ok (loadMovie fs self name) /\
   forall data,
     package_entry (mFilePackage self) name = Some data ->
     loadMusic fs self name = loadSong data /\
     loadScriptBundle fs self name = loadScripts (asText data)) /\
  (forall data,
     fs !! (mGamePath self </> name) = Some data ->
     loadMovie fs self name = loader_loadMovie data /\
     loadMusic fs self name = loadSong data /\
     loadScriptBundle fs self name = loadScripts (asText data)).
Proof.
  split.
  - intros Hfile. split.
    + unfold loadMovie, loadFile. rewrite Hfile. simpl. tauto.
    + intros data Hentry.
      unfold loadMusic, loadScriptBundle, fileAsText.
      rewrite (file_packed _ _ _ Hfile). unfold package_file.
      rewrite Hentry. done.
  - intros data Hfile.
    unfold loadMovie, loadMusic, loadScriptBundle, fileAsText, loadFile.
    rewrite (file_unpacked _ _ _ _ Hfile), Hfile. done.
Qed.

(** X14.  A stand-alone full-screen image that loads has the size of the
    view port and was decoded with the palette that
    [loadPaletteFromFullScreenImage] returns for the same name, a palette of
    16 colours read from the bytes after the image data. *)
Theorem loadStandaloneFullscreenImage_palette
    (name : string) (loaded : Image) :
  loadStandaloneFullscreenImage fs self name = Ok loaded ->
  width loaded = viewPortWidthPx /\
  height loaded = viewPortHeightPx /\
  exists data palette,
    file fs self name = Ok data /\
    loadPaletteFromFullScreenImage fs self name = Ok palette /\
    length palette = 16%nat /\
    (Z.to_nat FULL_SCREEN_IMAGE_DATA_SIZE + 48 <= length data)%nat /\
    decodeSimplePlanarEgaBuffer
      (take (Z.to_nat FULL_SCREEN_IMAGE_DATA_SIZE) data) palette =
      Ok (pixels loaded).
Proof.
  unfold loadStandaloneFullscreenImage, loadPaletteFromFullScreenImage.
  intros Hload.
  destruct (file fs self name) as [data |]; [| discriminate].
  cbn [mbind Result_bind] in *.
  set (paletteStart := drop (Z.to_nat FULL_SCREEN_IMAGE_DATA_SIZE) data) in *.
  destruct (le_lt_dec 48 (length paletteStart)) as [Hfits | Hshort].
  - destruct (load6bitPalette_consumes 16 paletteStart Hfits)
      as (palette & Hpalette & Hsize & _).
    unfold load6bitPalette16 in *. rewrite Hpalette in *.
    cbn [mbind Result_bind fst] in *.
    destruct (decodeSimplePlanarEgaBuffer _ palette) as [decoded |] eqn:Hdecode;
      [| discriminate].
    injection Hload as <-. cbn [width height pixels].
    split; [reflexivity |]. split; [reflexivity |].
    exists data, palette. repeat split; try done.
    subst paletteStart. rewrite length_drop in Hfits. lia.
  - unfold load6bitPalette16 in Hload.
    rewrite (load6bitPalette_short 16 paletteStart) in Hload by lia.
    discriminate.
Qed.

End OtherLoaderProperties.

(** ** Replacement files: which file replaces which asset *)

Lemma replacement_name_inj (prefix n1 n2 : string) :
  prefix +:+ n1 +:+ ".png" = prefix +:+ n2 +:+ ".png" -> n1 = n2.
Proof.
  intros Heq. apply (inj (String.append prefix)) in Heq.
  by apply string_app_inj_length_r in Heq as [-> _].
Qed.

(** X15.  The replacement file is determined by the part [N] of the name,
    character for character: two tile sets, or two backdrops, have the same
    replacement file exactly when their [N] is the same (the case of a
    letter and leading zeros count), and a tile set never shares its
    replacement file with a backdrop. *)
Theorem replacement_file_determined_by_N (name1 name2 n1 n2 : string) :
  (is_tileset_name name1 n1 -> is_tileset_name name2 n2 ->
   (tilesetReplacementName name1 = tilesetReplacementName name2 <->
    n1 = n2)) /\
  (is_backdrop_name name1 n1 -> is_backdrop_name name2 n2 ->
   (backdropReplacementName name1 = backdropReplacementName name2 <->
    n1 = n2)) /\
  (is_tileset_name name1 n1 -> is_backdrop_name name2 n2 ->
   tilesetReplacementName name1 <> backdropReplacementName name2).
Proof.
  split; [| split].
  - intros Hname1 Hname2.
    rewrite (proj2 (tilesetReplacementName_spec name1 _))
      by (exists n1; split; [exact Hname1 | reflexivity]).
    rewrite (proj2 (tilesetReplacementName_spec name2 _))
      by (exists n2; split; [exact Hname2 | reflexivity]).
    split; [| by intros ->].
    intros Heq. apply (inj Some) in Heq.
    by apply (replacement_name_inj "tileset").
  - intros Hname1 Hname2.
    rewrite (proj2 (backdropReplacementName_spec name1 _))
      by (exists n1; split; [exact Hname1 | reflexivity]).
    rewrite (proj2 (backdropReplacementName_spec name2 _))
      by (exists n2; split; [exact Hname2 | reflexivity]).
    split; [| by intros ->].
    intros Heq. apply (inj Some) in Heq.
    by apply (replacement_name_inj "backdrop").
  - intros Hname1 Hname2.
    rewrite (proj2 (tilesetReplacementName_spec name1 _))
      by (exists n1; split; [exact Hname1 | reflexivity]).
    rewrite (proj2 (backdropReplacementName_spec name2 _))
      by (exists n2; split; [exact Hname2 | reflexivity]).
    intros Heq. apply (inj Some) in Heq. discriminate.
Qed.

Section ReplacementFrame.
Context `{Collaborators}.
Variables (fs : FileSystem) (self : ResourceLoader).

Lemma file_insert_other (path name : string) (bytes : ByteBuffer) :
  mGamePath self </> name <> path ->
  file (<[path := bytes]> fs) self name = file fs self name.
Proof.
  intros Hpath. unfold file, fs_exists, loadFile.
  by rewrite lookup_insert_ne.
Qed.

(** X16.  The replacement file of an asset is not the asset's own unpacked
    file: putting a file where the replacement is looked for, or taking it
    away, changes nothing in what [file] and [hasFile] give for the
    asset's name. *)
Theorem replacement_file_is_not_the_asset
    (name replacement : string) (bytes : ByteBuffer) :
  tilesetReplacementName name = Some replacement \/
  backdropReplacementName name = Some replacement ->
  file (<[replacementPath (mGamePath self) replacement := bytes]> fs)
    self name = file fs self name /\
  file (delete (replacementPath (mGamePath self) replacement) fs)
    self name = file fs self name /\
  hasFile (<[replacementPath (mGamePath self) replacement := bytes]> fs)
    self name = hasFile fs self name /\
  hasFile (delete (replacementPath (mGamePath self) replacement) fs)
    self name = hasFile fs self name.
Proof.
  intros Hname.
  assert (mGamePath self </> name <>
          replacementPath (mGamePath self) replacement) as Hpath.
  { destruct Hname as [Hname | Hname];
      [by apply tileset_name_path | by apply backdrop_name_path]. }
  split; [by apply file_insert_other |].
  split; [by apply file_delete_other |].
  unfold hasFile, fs_exists.
  by rewrite lookup_insert_ne, lookup_delete_ne.
Qed.

End ReplacementFrame.

(** ** The attribute table: the bytes read over *)

Section SkippedBytes.
Context `{GameTraits}.

Lemma attributeBytes_next (i : nat) (index : Z) :
  (attributeBytes i index + 2 <= attributeBytes (S i) index)%nat.
Proof.
  apply Nat2Z.inj_le. rewrite Nat2Z.inj_add, !attributeBytes_closed. lia.
Qed.

(** X17.  The attributes depend on the two attribute bytes of each entry
    only: two tables that decode and agree on these bytes give the same
    attributes, whatever the eight bytes after each attribute of a masked
    tile and the bytes after the table are. *)
Theorem skipped_bytes_are_ignored
    (table1 table2 : ByteBuffer) (attributes1 attributes2 : list Z)
    (rest1 rest2 : ByteBuffer) :
  readAttributes (Z.to_nat numTilesTotal) 0 [] table1 =
    Ok (attributes1, rest1) ->
  readAttributes (Z.to_nat numTilesTotal) 0 [] table2 =
    Ok (attributes2, rest2) ->
  (forall i, (i < Z.to_nat numTilesTotal)%nat ->
     table1 !! attributeBytes i 0 = table2 !! attributeBytes i 0 /\
     table1 !! (attributeBytes i 0 + 1)%nat =
       table2 !! (attributeBytes i 0 + 1)%nat) ->
  attributes1 = attributes2.
Proof.
  intros Hread1 Hread2 Hagree.
  set (total := Z.to_nat numTilesTotal) in *.
  assert (attributeBytes total 0 <= length table1)%nat as Hfits1.
  { apply (readAttributes_is_Ok total 0 []). by rewrite Hread1. }
  assert (attributeBytes total 0 <= length table2)%nat as Hfits2.
  { apply (readAttributes_is_Ok total 0 []). by rewrite Hread2. }
  destruct (readAttributes_returns total 0 [] table1 Hfits1)
    as (new1 & Hnew1 & Hsize1 & Hentry1).
  destruct (readAttributes_returns total 0 [] table2 Hfits2)
    as (new2 & Hnew2 & Hsize2 & Hentry2).
  rewrite Hread1 in Hnew1. rewrite Hread2 in Hnew2.
  injection Hnew1 as -> _. injection Hnew2 as -> _. cbn [app].
  apply list_eq. intros i.
  destruct (le_lt_dec total i) as [Hout | Hin].
  - by rewrite !lookup_ge_None_2 by lia.
  - pose proof (attributeBytes_next i 0) as Hnext.
    pose proof (attributeBytes_mono (S i) total 0 ltac:(lia)) as Hmono.
    destruct (lookup_lt_is_Some_2 table1 (attributeBytes i 0) ltac:(lia))
      as [lsb Hlsb].
    destruct (lookup_lt_is_Some_2 table1 (attributeBytes i 0 + 1) ltac:(lia))
      as [msb Hmsb].
    destruct (Hagree i Hin) as [Hlsb' Hmsb'].
    rewrite (Hentry1 i lsb msb Hin Hlsb Hmsb).
    rewrite (Hentry2 i lsb msb Hin); congruence.
Qed.

End SkippedBytes.

(** ** The further properties on the concrete settings *)

Lemma sample_ints :
  int_range 0 /\ int_range 1 /\ int_range 2 /\ int_range 3 /\ int_range (-1).
Proof. unfold int_range. lia. Qed.

Lemma sampleMap_wf : Map_wf sampleMap.
Proof. apply Map_new_wf; lia. Qed.

Lemma Map_new_blank_witness : tileAt sampleMap 1 3 2 = Ok 0.
Proof.
  apply (Map_new_blank (mkTileSet (mkImage [] 0 0) []) (mkImage [] 0 0) None
           4 3 ltac:(lia) ltac:(lia) ltac:(lia)); lia.
Defined.

Lemma tileAt_after_setTileAt_witness :
  tileAt (@setTileAt dukeNukem2Traits sampleMap 0 1 1 7).2 0 1 1 = Ok 7 /\
  tileAt (@setTileAt dukeNukem2Traits sampleMap 0 1 1 7).2 1 1 1 =
    tileAt sampleMap 1 1 1.
Proof.
  destruct sample_ints as (H0 & H1 & _).
  split.
  - rewrite (@tileAt_after_setTileAt dukeNukem2Traits sampleMap 0 1 1 7 0 1 1
               sampleMap_wf H0 H1 H1 H0 H1 H1 eq_refl).
    reflexivity.
  - rewrite (@tileAt_after_setTileAt dukeNukem2Traits sampleMap 0 1 1 7 1 1 1
               sampleMap_wf H0 H1 H1 H1 H1 H1 eq_refl).
    reflexivity.
Defined.

Lemma setTileAt_keeps_witness :
  Map_wf (@setTileAt dukeNukem2Traits sampleMap 0 1 1 7).2 /\
  mWidthInTiles (@setTileAt dukeNukem2Traits sampleMap 0 1 1 7).2 = 4.
Proof.
  destruct (@setTileAt_keeps dukeNukem2Traits sampleMap 0 1 1 7)
    as (Hwf & Hwidth & _).
  split; [exact (Hwf sampleMap_wf) | exact Hwidth].
Defined.

Lemma setTileAt_compose_witness :
  (@setTileAt dukeNukem2Traits
     (@setTileAt dukeNukem2Traits sampleMap 0 1 1 9).2 0 1 1 7).2 =
  (@setTileAt dukeNukem2Traits sampleMap 0 1 1 7).2 /\
  (@setTileAt dukeNukem2Traits
     (@setTileAt dukeNukem2Traits sampleMap 0 1 1 7).2 1 3 2 9).2 =
  (@setTileAt dukeNukem2Traits
     (@setTileAt dukeNukem2Traits sampleMap 1 3 2 9).2 0 1 1 7).2.
Proof.
  destruct sample_ints as (H0 & H1 & H2 & H3 & _).
  destruct (@setTileAt_compose dukeNukem2Traits sampleMap 0 1 1 7 1 3 2 9
              sampleMap_wf H0 H1 H1 H1 H3 H2 eq_refl eq_refl)
    as [Hsame Hother].
  split; [exact Hsame |]. apply Hother. intros (Hlayer & _). discriminate.
Defined.

Lemma setTileAt_error_precedence_witness :
  @setTileAt dukeNukem2Traits sampleMap 2 (-1) 3 1160 =
    (Err (InvalidArgument "Tile index too large for tile set"), sampleMap) /\
  tileAt sampleMap 2 (-1) 3 =
    Err (InvalidArgument "Layer index out of bounds") /\
  tileAt sampleMap 1 (-1) 3 = Err (InvalidArgument "X coord out of bounds").
Proof.
  destruct sample_ints as (H0 & H1 & H2 & H3 & Hm1).
  split; [| split].
  - apply (@setTileAt_error_precedence dukeNukem2Traits sampleMap 2 (-1) 3
             1160 sampleMap_wf H2 Hm1 H3). simpl. lia.
  - apply (@setTileAt_error_precedence dukeNukem2Traits sampleMap 2 (-1) 3
             1160 sampleMap_wf H2 Hm1 H3). lia.
  - apply (@setTileAt_error_precedence dukeNukem2Traits sampleMap 1 (-1) 3
             1160 sampleMap_wf H1 Hm1 H3); lia.
Defined.

Lemma empty_map_rejects_witness :
  exists what, tileAt emptyMap 0 0 0 = Err (InvalidArgument what).
Proof.
  destruct sample_ints as (H0 & _).
  apply (@empty_map_rejects dukeNukem2Traits emptyMap 0 0 0 0
           ltac:(apply Map_new_wf; lia) H0 H0 H0).
  left. reflexivity.
Defined.


Lemma sample_backdrop_name : is_backdrop_name "DROP7.MNI" "7".
Proof. exists "DROP", ".MNI". repeat split; try reflexivity. discriminate. Qed.


(** DROP7.MNI exists nowhere, backdrop7.png is loaded. *)
Lemma loadBackdrop_replacement_first_witness :
  @file sampleCollaborators sampleFs2 sampleLoader "DROP7.MNI" =
    Err NotFoundError /\
  @loadBackdrop dukeNukem2Traits sampleCollaborators
    sampleFs2 sampleLoader "DROP7.MNI" = Ok (mkImage [grey xff] 1 1).
Proof.
  split; [reflexivity |].
  apply (@loadBackdrop_replacement_first dukeNukem2Traits sampleCollaborators
           sampleFs2 sampleLoader "DROP7.MNI" "7" samplePng
           (mkImage [grey xff] 1 1) sample_backdrop_name eq_refl eq_refl).
Defined.


Lemma loadCZone_attributes_witness :
  length (replicate 1160 (257 : Z)) = 1160%nat /\
  Forall (fun attribute => 0 <= attribute < 65536) (replicate 1160 (257 : Z)).
Proof.
  apply (@loadCZone_attributes dukeNukem2Traits sampleCollaborators
           sampleFs sampleLoader "CZONE3.MNI"
           (mkTileSet (mkImage [grey xff] 1 1) (replicate 1160 257))).
  vm_compute. reflexivity.
Defined.

Lemma sample_not_a_tileset_name (n : string) : ~ is_tileset_name "DROP1.MNI" n.
Proof.
  intros (prefix & c & extension & Hname & Hprefix & _).
  apply eq_nocase_first in Hprefix as (c' & prefix' & -> & Hc').
  injection Hname as <- _. discriminate.
Qed.

(** DROP1.MNI is no tile set name: a replacement file put into
    asset_replacements changes nothing in how it is loaded as a tile set. *)
Lemma unmatched_names_are_not_replaced_witness :
  @loadCZone dukeNukem2Traits sampleCollaborators
    (<["game/asset_replacements/tileset1.png" := samplePng]> sampleFs)
    sampleLoader "DROP1.MNI" =
  @loadCZone dukeNukem2Traits sampleCollaborators
    sampleFs sampleLoader "DROP1.MNI".
Proof.
  assert (@file sampleCollaborators
            (<["game/asset_replacements/tileset1.png" := samplePng]> sampleFs)
            sampleLoader "DROP1.MNI" =
          @file sampleCollaborators sampleFs sampleLoader "DROP1.MNI")
    as Hsame by reflexivity.
  exact (proj1 (@unmatched_names_are_not_replaced
                  dukeNukem2Traits sampleCollaborators sampleFs sampleLoader
                  (<["game/asset_replacements/tileset1.png" := samplePng]>
                     sampleFs)
                  "DROP1.MNI" Hsame) sample_not_a_tileset_name).
Defined.

(** INTRO4.MNI is missing; SB_36.MNI, the digitized file of the ordinal of
    the second intro sound, is there and is not used. *)
Lemma loadSound_intro_no_fallback_witness :
  hasFile sampleFs2 sampleLoader
    (@digitizedSoundFileName sampleCollaborators IntroGunShotLow) = true /\
  @loadSound sampleCollaborators sampleFs2 sampleLoader IntroGunShotLow =
    Err NotFoundError.
Proof.
  split; [reflexivity |].
  apply (@loadSound_intro_no_fallback sampleCollaborators sampleFs2
           sampleLoader IntroGunShotLow "INTRO4.MNI" eq_refl eq_refl).
Defined.

(** INTRO3.MNI is in the archive only. *)
Lemma loadMovie_not_from_archive_witness :
  ~ is_Ok (@loadMovie sampleCollaborators sampleMediaDecoders
             sampleFs sampleLoader "INTRO3.MNI") /\
  @loadMusic sampleCollaborators sampleMediaDecoders
    sampleFs sampleLoader "INTRO3.MNI" = Ok [x43; x01; x02].
Proof.
  destruct (@loadMovie_not_from_archive sampleCollaborators sampleMediaDecoders
              sampleFs sampleLoader "INTRO3.MNI") as [Harchive _].
  destruct (Harchive eq_refl) as [Hmovie Hmusic].
  split; [exact Hmovie |].
  apply (Hmusic [x43; x01; x02] eq_refl).
Defined.

Lemma sample_fullscreen_loads :
  exists loaded,
    @loadStandaloneFullscreenImage dukeNukem2Traits sampleCollaborators
      dukeNukem2EgaTraits sampleMediaDecoders sampleFs2 sampleLoader
      "TITLE.MNI" = Ok loaded.
Proof.
  destruct (@loadStandaloneFullscreenImage _ _ _ _ _ _ _)
    as [loaded | e] eqn:Hload; [by exists loaded |].
  vm_compute in Hload. discriminate.
Qed.

Lemma loadStandaloneFullscreenImage_palette_witness :
  exists palette,
    @loadPaletteFromFullScreenImage dukeNukem2Traits sampleCollaborators
      dukeNukem2EgaTraits sampleFs2 sampleLoader "TITLE.MNI" = Ok palette /\
    length palette = 16%nat.
Proof.
  destruct sample_fullscreen_loads as [loaded Hload].
  destruct (@loadStandaloneFullscreenImage_palette
              dukeNukem2Traits sampleCollaborators dukeNukem2EgaTraits
              sampleMediaDecoders sampleFs2 sampleLoader "TITLE.MNI" loaded
              Hload)
    as (_ & _ & data & palette & _ & Hpalette & Hsize & _).
  exists palette. split; assumption.
Defined.

(** The case of the letter counts: CZONEA.MNI and czonea.mni have different
    replacement files; so have DROP1.MNI and DROP01.MNI. *)
Lemma replacement_file_determined_by_N_witness :
  tilesetReplacementName "CZONEA.MNI" <> tilesetReplacementName "czonea.mni" /\
  backdropReplacementName "DROP1.MNI" <> backdropReplacementName "DROP01.MNI".
Proof.
  split; intros Heq.
  - apply (proj1 (@replacement_file_determined_by_N
                    "CZONEA.MNI" "czonea.mni" "A" "a")) in Heq;
      [discriminate | |].
    + exists "CZONE", "A"%char, ".MNI". repeat split; reflexivity.
    + exists "czone", "a"%char, ".mni". repeat split; reflexivity.
  - apply (proj1 (proj2 (@replacement_file_determined_by_N
                           "DROP1.MNI" "DROP01.MNI" "1" "01"))) in Heq;
      [discriminate | |].
    + exists "DROP", ".MNI". repeat split; try reflexivity. discriminate.
    + exists "DROP", ".MNI". repeat split; try reflexivity. discriminate.
Defined.

Lemma replacement_file_is_not_the_asset_witness :
  @file sampleCollaborators
    (delete (replacementPath "game" "tileset3.png") sampleFs)
    sampleLoader "CZONE3.MNI" =
  @file sampleCollaborators sampleFs sampleLoader "CZONE3.MNI".
Proof.
  apply (@replacement_file_is_not_the_asset sampleCollaborators
           sampleFs sampleLoader "CZONE3.MNI" "tileset3.png" []).
  left. reflexivity.
Defined.

Lemma sampleTable_offsets (i : nat) :
  @attributeBytes dukeNukem2Traits i 0 <> 2002%nat /\
  (@attributeBytes dukeNukem2Traits i 0 + 1)%nat <> 2002%nat.
Proof.
  pose proof (@attributeBytes_closed dukeNukem2Traits i 0) as Hclosed.
  change (@numSolidTiles dukeNukem2Traits) with 1000 in Hclosed. lia.
Qed.

Lemma sampleTables_decode :
  sampleTable <> sampleTable2 /\
  exists attributes1 attributes2,
    @readAttributes dukeNukem2Traits
      (Z.to_nat (@numTilesTotal dukeNukem2Traits)) 0 [] sampleTable =
      Ok (attributes1, []) /\
    @readAttributes dukeNukem2Traits
      (Z.to_nat (@numTilesTotal dukeNukem2Traits)) 0 [] sampleTable2 =
      Ok (attributes2, []).
Proof.
  split.
  - intros Heq. apply (f_equal (fun table => table !! 2002%nat)) in Heq.
    vm_compute in Heq. discriminate.
  - do 2 eexists. split; vm_compute; reflexivity.
Qed.

Lemma sampleTables_agree (i : nat) :
  sampleTable !! @attributeBytes dukeNukem2Traits i 0 =
    sampleTable2 !! @attributeBytes dukeNukem2Traits i 0 /\
  sampleTable !! (@attributeBytes dukeNukem2Traits i 0 + 1)%nat =
    sampleTable2 !! (@attributeBytes dukeNukem2Traits i 0 + 1)%nat.
Proof.
  destruct (sampleTable_offsets i) as [Hlsb Hmsb].
  unfold sampleTable2.
  by rewrite !list_lookup_insert_ne by done.
Qed.

(** The byte at offset 2002 is one of the eight after the attribute of the
    first masked tile: the two tables differ there and decode to the same
    attributes. *)
Lemma skipped_bytes_are_ignored_witness :
  sampleTable <> sampleTable2 /\
  exists attributes,
    @readAttributes dukeNukem2Traits
      (Z.to_nat (@numTilesTotal dukeNukem2Traits)) 0 [] sampleTable =
      Ok (attributes, []) /\
    @readAttributes dukeNukem2Traits
      (Z.to_nat (@numTilesTotal dukeNukem2Traits)) 0 [] sampleTable2 =
      Ok (attributes, []).
Proof.
  destruct sampleTables_decode
    as (Hdiffer & attributes1 & attributes2 & Hread1 & Hread2).
  split; [exact Hdiffer |].
  assert (attributes1 = attributes2) as ->.
  { apply (@skipped_bytes_are_ignored dukeNukem2Traits
             sampleTable sampleTable2 attributes1 attributes2 [] []
             Hread1 Hread2).
    intros i _. apply sampleTables_agree. }
  exists attributes2. split; assumption.
Defined.
